(** * Authentication and permission core of go-project-structure

    A shallow embedding of package [auth] (status codec, claims context,
    store access, role resolution, permission check, login, refresh and
    token minting) together with the properties of its specification. *)

From Stdlib Require Import ZArith String Ascii List Lia.
From stdpp Require Import base option list strings gmap sets pretty.

Local Open Scope string_scope.
Local Open Scope list_scope.
Local Open Scope Z_scope.

(** ** Go values: errors and the three ways a call can end *)

(** Canonical codes of [google.golang.org/grpc/codes] used by the package. *)
Inductive code := InvalidArgument | Unauthenticated | PermissionDenied.

(** [errdetails.BadRequest_FieldViolation]. *)
Record FieldViolation := { Field : string; Description : string }.

(** The error values the package builds or lets through. *)
Inductive error :=
| ErrUserNotFound
    (* the package variable [ErrUserNotFound] *)
| ErrNoRows
    (* [pgx.ErrNoRows] *)
| ErrNew (msg : string)
    (* [errors.New] and [fmt.Errorf] without [%w] *)
| ErrWrap (prefix : string) (cause : error)
    (* [fmt.Errorf("prefix: %w", cause)] *)
| ErrStatus (c : code) (msg : string) (details : list FieldViolation)
    (* [rpcstatus.Error] and [rpcstatus.New(..).WithDetails(..).Err()] *)
| ErrScanArg (col : nat) (cause : error)
    (* the driver's report that a [Scanner] destination refused a column *)
| ErrDriver (msg : string)
    (* any other failure of the driver: connection, cancellation, SQL *).

(** A call returns a value, returns an error, or panics. *)
Inductive outcome (A : Type) :=
| Ok (a : A)
| Err (e : error)
| Panic (msg : string).
Arguments Ok {A} a.
Arguments Err {A} e.
Arguments Panic {A} msg.

Global Instance code_eq_dec : EqDecision code.
Proof. solve_decision. Defined.

Global Instance FieldViolation_eq_dec : EqDecision FieldViolation.
Proof. solve_decision. Defined.

(** [errors.Is err target] for the two sentinels: walk the chain of
    [Unwrap]. *)
Fixpoint errors_Is_UserNotFound (e : error) : bool :=
  match e with
  | ErrUserNotFound => true
  | ErrWrap _ c | ErrScanArg _ c => errors_Is_UserNotFound c
  | _ => false
  end.

Fixpoint errors_Is_NoRows (e : error) : bool :=
  match e with
  | ErrNoRows => true
  | ErrWrap _ c | ErrScanArg _ c => errors_Is_NoRows c
  | _ => false
  end.

(** [rpcstatus.Error(c, msg)]. *)
Definition rpcstatus_Error (c : code) (msg : string) : error :=
  ErrStatus c msg [].

(** The spec's error classes, read off the status code. *)
Definition isAuthenticationError (e : error) : Prop :=
  ∃ msg ds, e = ErrStatus Unauthenticated msg ds.

Definition isPermissionDenied (e : error) : Prop :=
  ∃ msg ds, e = ErrStatus PermissionDenied msg ds.

Definition isInvalidArgument (e : error) : Prop :=
  ∃ msg ds, e = ErrStatus InvalidArgument msg ds.

(** ** Strings, slices and [strconv] *)

Definition dquote : ascii := ascii_of_nat 34.

(** A JSON string literal as the decoder hands it over: quotes included. *)
Definition quoted (s : string) : string :=
  String dquote (s +:+ String dquote EmptyString).

Definition len (s : string) : Z := Z.of_nat (String.length s).

(** The text of the run-time panic of [b[lo:hi]]: the upper bound is
    checked first, then the lower one against it. The capacity of [b] is
    taken to be its length. *)
Definition sliceBoundsText (b : string) (lo hi : Z) : string :=
  "runtime error: slice bounds out of range "
  +:+ (if hi <? 0 then "[:" +:+ pretty hi +:+ "]"
       else if len b <? hi
         then "[:" +:+ pretty hi +:+ "] with capacity " +:+ pretty (len b)
       else if lo <? 0 then "[" +:+ pretty lo +:+ ":]"
       else "[" +:+ pretty lo +:+ ":" +:+ pretty hi +:+ "]").

(** The slice expression [b[lo:hi]]; out of range it panics. *)
Definition slice (b : string) (lo hi : Z) : outcome string :=
  if (0 <=? lo) && (lo <=? hi) && (hi <=? len b)
  then Ok (substring (Z.to_nat lo) (Z.to_nat (hi - lo)) b)
  else Panic (sliceBoundsText b lo hi).

Definition minInt : Z := - 2 ^ 63.
Definition maxInt : Z := 2 ^ 63 - 1.

Definition digit_of (c : ascii) : option Z :=
  let n := Z.of_nat (nat_of_ascii c) in
  if (48 <=? n) && (n <=? 57) then Some (n - 48) else None.

Fixpoint parse_digits (acc : Z) (s : string) : option Z :=
  match s with
  | EmptyString => Some acc
  | String c r =>
      match digit_of c with
      | Some d => parse_digits (acc * 10 + d) r
      | None => None
      end
  end.

(** [strconv.Atoi] on a 64-bit platform, [None] when it returns an error:
    an optional sign, then at least one decimal digit and nothing else,
    the value within the range of [int]. *)
Definition Atoi (s : string) : option Z :=
  match s with
  | EmptyString => None
  | String c r =>
      let neg := Ascii.eqb c "-" in
      let body := if neg || Ascii.eqb c "+" then r else s in
      match body with
      | EmptyString => None
      | _ =>
          match parse_digits 0 body with
          | None => None
          | Some n =>
              let v := if neg then - n else n in
              if (minInt <=? v) && (v <=? maxInt) then Some v else None
          end
      end
  end.

(** [strings.Join]. *)
Fixpoint join (sep : string) (xs : list string) : string :=
  match xs with
  | [] => ""
  | [x] => x
  | x :: r => x +:+ sep +:+ join sep r
  end.

(** The verb [%v] on a [[]string]: the elements between brackets,
    separated by one space. *)
Definition fmt_v_strings (xs : list string) : string :=
  "[" +:+ join " " xs +:+ "]".

(** ** The status enumeration *)

Module Status.

(** [type status int] *)
Definition status := Z.

Definition StatusUnSpecified : status := 0.
Definition StatusDisabled : status := 1.
Definition StatusTerminated : status := 2.
Definition StatusEnabled : status := 3.

Definition statusNames : gmap Z string :=
  <[StatusUnSpecified := "UNSPECIFIED"]>
    (<[StatusEnabled := "ENABLED"]>
       (<[StatusDisabled := "DISABLED"]>
          (<[StatusTerminated := "TERMINATED"]> ∅))).

Definition statusValues : gmap string Z :=
  <["UNSPECIFIED" := StatusUnSpecified]>
    (<["ENABLED" := StatusEnabled]>
       (<["DISABLED" := StatusDisabled]>
          (<["TERMINATED" := StatusTerminated]> ∅))).

Definition String (s : status) : string :=
  match statusNames !! s with
  | Some v => v
  | None => "Status(" +:+ pretty s +:+ ")"
  end.

Definition MarshalJSON (s : status) : outcome string :=
  Ok (quoted (String s)).

(** [(s *status) UnmarshalJSON(b)]: [cur] is the value [*s] holds at the
    call, the result is the value it holds after a [nil] return. *)
Definition UnmarshalJSON (cur : status) (b : string) : outcome status :=
  if decide (b = "null") then Ok cur
  else
    match slice b 1 (len b - 1) with
    | Panic m => Panic m
    | Err e => Err e
    | Ok b' =>
        match statusValues !! b' with
        | Some v => Ok v
        | None =>
            match Atoi b' with
            | Some v => Ok v
            | None => Err (ErrNew ("invalid status: " +:+ b'))
            end
        end
    end.

(** What the driver hands to a [Scanner]. *)
Inductive src :=
| SrcNil
| SrcString (s : string)
| SrcBytes (b : string)
| SrcInt64 (n : Z)
| SrcBool (b : bool)
| SrcOther (shown : string).

(** The verb [%v] on a [src]. *)
Definition fmt_v (x : src) : string :=
  match x with
  | SrcNil => "<nil>"
  | SrcString s => s
  | SrcBytes b =>
      fmt_v_strings
        ((λ c, pretty (N.of_nat (nat_of_ascii c))) <$> list_ascii_of_string b)
  | SrcInt64 n => pretty n
  | SrcBool b => if b then "true" else "false"
  | SrcOther shown => shown
  end.

(** [(s *status) Scan(src)], with [cur] and the result as above. *)
Definition Scan (cur : status) (x : src) : outcome status :=
  match x with
  | SrcNil => Ok cur
  | _ =>
      let found :=
        match x with
        | SrcString s => statusValues !! s
        | SrcBytes b => statusValues !! b
        | _ => None
        end in
      match found with
      | Some v => Ok v
      | None => Err (ErrNew ("invalid status: " +:+ fmt_v x))
      end
  end.

End Status.

(** ** Claims and the request context (claims.go) *)

Record Claims := {
  claims_ID : string;
  claims_Username : string;
  claims_DisplayName : string }.

Global Instance Claims_eq_dec : EqDecision Claims.
Proof. solve_decision. Defined.

(** The zero value [Claims{}]. *)
Definition emptyClaims : Claims :=
  {| claims_ID := ""; claims_Username := ""; claims_DisplayName := "" |}.

(** A [*Claims]: [None] is the nil pointer. *)
Definition ClaimsPtr : Type := option Claims.

(** Context keys: those of the unexported type [ctxKey] (an [int]), and
    the keys of every other type, which never equal a [ctxKey]. *)
Inductive key :=
| CtxKey (n : Z)
| ForeignKey (name : string).

Global Instance key_eq_dec : EqDecision key.
Proof. solve_decision. Defined.

(** [claimsKey ctxKey = iota] *)
Definition claimsKey : key := CtxKey 0.

(** The dynamic values a context stores, by dynamic type. *)
Inductive any :=
| AnyClaims (p : ClaimsPtr)
| AnyOther (shown : string).

(** [context.Context]: the background context and [context.WithValue]. *)
Inductive Context :=
| Background
| WithValue (parent : Context) (k : key) (v : any).

(** [ctx.Value(k)]: the innermost binding of [k]; [None] is the nil
    interface. *)
Fixpoint Value (ctx : Context) (k : key) : option any :=
  match ctx with
  | Background => None
  | WithValue parent k' v => if decide (k' = k) then Some v else Value parent k
  end.

Definition ClaimsFromContext (ctx : Context) : ClaimsPtr :=
  match Value ctx claimsKey with
  | Some (AnyClaims claims) => claims
  | _ => Some emptyClaims
  end.

Definition ContextWithClaims (ctx : Context) (claims : ClaimsPtr) : Context :=
  WithValue ctx claimsKey (AnyClaims claims).

(** A context carries a claims value when its binding of [claimsKey] has
    dynamic type [*Claims]. *)
Definition carriesClaims (ctx : Context) : Prop :=
  ∃ p, Value ctx claimsKey = Some (AnyClaims p).

(** ** Roles and the access decision *)

Record Role := {
  role_ID : Z;
  role_Name : string;
  role_DisplayName : string;
  role_Permissions : list string }.

(** The loop [for _, r := range rs { ps = append(ps, r.Permissions...) }]. *)
Definition roleToPermissions (rs : list Role) : list string :=
  foldl (λ ps r, ps ++ role_Permissions r) [] rs.

(** The first loop of [checkMissingPermissions]: the set [havingSet]. *)
Definition havingSet (having : list string) : gset string :=
  foldl (λ set p, {[p]} ∪ set) ∅ having.

Definition checkMissingPermissions (wanted having : list string) : list string :=
  let set := havingSet having in
  foldl (λ missing p, if decide (p ∈ set) then missing else missing ++ [p])
        [] wanted.


(** ** Calls that reach the store

    A call that may query the store threads the list of queries issued so
    far, and ends as an [outcome]. *)

Inductive query :=
| QueryUser (username : string)
| QueryRoles (username : string).

Definition M (A : Type) : Type := list query → outcome A * list query.

Global Instance M_ret : MRet M := λ A a log, (Ok a, log).

Global Instance M_bind : MBind M := λ A B f m log,
  match m log with
  | (Ok a, log') => f a log'
  | (Err e, log') => (Err e, log')
  | (Panic msg, log') => (Panic msg, log')
  end.

Definition fail {A} (e : error) : M A := λ log, (Err e, log).
Definition panic {A} (msg : string) : M A := λ log, (Panic msg, log).
Definition issue (q : query) : M unit := λ log, (Ok tt, log ++ [q]).

(** The two-valued return [(v, err)] of a call, for code that inspects
    [err] before deciding. *)
Definition attempt {A} (m : M A) : M (error + A) := λ log,
  match m log with
  | (Ok a, log') => (Ok (inr a), log')
  | (Err e, log') => (Ok (inl e), log')
  | (Panic msg, log') => (Panic msg, log')
  end.

(** Run a call from an empty log. *)
Definition run {A} (m : M A) : outcome A * list query := m [].
Definition result {A} (m : M A) : outcome A := fst (run m).
Definition queries {A} (m : M A) : list query := snd (run m).

(** Dereferencing a pointer. *)
Definition deref {A} (p : option A) : M A :=
  match p with
  | Some a => mret a
  | None =>
      panic "runtime error: invalid memory address or nil pointer dereference"
  end.

(** ** The store (sql.go) *)

Record User := {
  ID : string;
  Username : string;
  DisplayName : string;
  Status : Status.status;
  CreatedAt : Z;
  hashedPassword : string;
  createdBy : string;
  updatedBy : string;
  updatedAt : Z }.

(** The columns of a row of the user query, as the driver holds them. *)
Record UserColumns := {
  col_id : string;
  col_username : string;
  col_display_name : string;
  col_hash_password : string;
  col_status : Status.src;
  col_created_at : Z;
  col_created_by : string;
  col_updated_at : Z;
  col_updated_by : string }.

(** What [db.QueryRow] has for [row.Scan]: an error ([pgx.ErrNoRows] when
    nothing matches), or a row. *)
Inductive RowReply :=
| RowFail (e : error)
| RowFound (cols : UserColumns).

(** One row of the role query, as [rows.Scan] leaves it. *)
Inductive RoleScan :=
| RoleScanFail (e : error)
| RoleScanned (r : Role).

(** What [db.Query] has: an error, or the rows and the final [rows.Err()]. *)
Inductive RowsReply :=
| QueryFail (e : error)
| QueryRows (rows : list RoleScan) (rowsErr : option error).

(** [*pgxpool.Pool], by its replies to the two queries of the package. *)
Record Pool := {
  QueryRow_user : string → RowReply;
  Query_roles : string → RowsReply }.

(** [row.Scan(&u.ID, .., &u.Status, ..)] into [u := new(User)]: the status
    column, the fifth destination, goes through [status.Scan]. *)
Definition scanUser (reply : RowReply) : outcome User :=
  match reply with
  | RowFail e => Err e
  | RowFound c =>
      match Status.Scan 0 (col_status c) with
      | Ok st =>
          Ok {| ID := col_id c; Username := col_username c;
                DisplayName := col_display_name c; Status := st;
                CreatedAt := col_created_at c;
                hashedPassword := col_hash_password c;
                createdBy := col_created_by c; updatedBy := col_updated_by c;
                updatedAt := col_updated_at c |}
      | Err e => Err (ErrScanArg 4 e)
      | Panic msg => Panic msg
      end
  end.

Definition getUserByUsername (db : Pool) (username : string) : M User :=
  _ ← issue (QueryUser username);
  match scanUser (QueryRow_user db username) with
  | Err err =>
      if errors_Is_NoRows err then fail ErrUserNotFound else fail err
  | Ok u => mret u
  | Panic msg => panic msg
  end.

(** The loop [for rows.Next() { .. rs = append(rs, r) }]. *)
Fixpoint scanRoles (rows : list RoleScan) (rs : list Role) : error + list Role :=
  match rows with
  | [] => inr rs
  | RoleScanFail e :: _ => inl (ErrWrap "failed to scan row: " e)
  | RoleScanned r :: rest => scanRoles rest (rs ++ [r])
  end.

Definition listRolesByUsername (db : Pool) (username : string) : M (list Role) :=
  _ ← issue (QueryRoles username);
  match Query_roles db username with
  | QueryFail e => fail (ErrWrap "failed to execute query: " e)
  | QueryRows rows rowsErr =>
      match scanRoles rows [] with
      | inl e => fail e
      | inr rs =>
          match rowsErr with
          | Some e => fail (ErrWrap "failed to iterate rows: " e)
          | None => mret rs
          end
      end
  end.

(** ** The service: role listing and the permission check *)

Definition V4SymmetricKey : Type := string.

(** [Auth]; the logger has no part in what a call returns. *)
Record Auth := {
  db : Pool;
  aKey : V4SymmetricKey;
  rKey : V4SymmetricKey }.

Definition ListMyRoles (s : Auth) (ctx : Context) : M (list Role) :=
  claims ← deref (ClaimsFromContext ctx);
  listRolesByUsername (db s) (claims_Username claims).

Definition permissionDeniedMessage (missed : list string) : string :=
  "You do not have sufficient permissions. Required " +:+ fmt_v_strings missed
    +:+ " to perform this action".

Definition CanI (s : Auth) (ctx : Context) (permissions : list string) : M unit :=
  if decide (length permissions = 0%nat) then
    fail (ErrNew "no permissions specified")
  else
    claims ← deref (ClaimsFromContext ctx);
    roles ← listRolesByUsername (db s) (claims_Username claims);
    let missed := checkMissingPermissions permissions (roleToPermissions roles) in
    if decide (0 < length missed)%nat then
      fail (rpcstatus_Error PermissionDenied (permissionDeniedMessage missed))
    else mret tt.

(** ** The role query over tables

    The three relations the role query joins, and the rows it selects:
    [user_has_role AS ur], joined with [role r] and with
    [role_has_permission AS rh] on the role name, restricted to one
    username, grouped by role, the permission names aggregated. Groups
    come in order of first appearance; SQL leaves the order open. *)

Record Tables := {
  user_has_role : list (string * string);       (* username, role_name *)
  role : list (Z * string * string);            (* id, name, display_name *)
  role_has_permission : list (string * string)  (* role_name, permission_name *) }.

Definition joinedRows (t : Tables) (username : string)
  : list (Z * string * string * string) :=
  ur ← filter (λ ur, ur.1 = username) (user_has_role t);
  r ← filter (λ r, r.1.2 = ur.2) (role t);
  rh ← filter (λ rh, rh.1 = ur.2) (role_has_permission t);
  [(r.1.1, r.1.2, r.2, rh.2)].

Fixpoint addToGroup (row : Z * string * string * string) (gs : list Role)
  : list Role :=
  let '(id, name, display, perm) := row in
  match gs with
  | [] => [ {| role_ID := id; role_Name := name; role_DisplayName := display;
               role_Permissions := [perm] |} ]
  | g :: rest =>
      if decide (role_ID g = id ∧ role_Name g = name ∧ role_DisplayName g = display)
      then {| role_ID := id; role_Name := name; role_DisplayName := display;
              role_Permissions := role_Permissions g ++ [perm] |} :: rest
      else g :: addToGroup row rest
  end.

Definition rolesQuery (t : Tables) (username : string) : list Role :=
  foldl (λ gs row, addToGroup row gs) [] (joinedRows t username).

(** A pool that answers the role query from tables, without failure. *)
Definition tablePool (users : string → RowReply) (t : Tables) : Pool :=
  {| QueryRow_user := users;
     Query_roles := λ username,
       QueryRows (RoleScanned <$> rolesQuery t username) None |}.

(** ** Tokens and the libraries the service calls *)

(** [time.Time] as nanoseconds since the epoch, [time.Duration] as
    nanoseconds. *)
Definition Time : Type := Z.
Definition Duration : Type := Z.
Definition Nanosecond : Duration := 1.
Definition Second : Duration := 1000000000 * Nanosecond.
Definition Minute : Duration := 60 * Second.
Definition Hour : Duration := 60 * Minute.
Definition Add (t : Time) (d : Duration) : Time := t + d.

(** The values a [paseto.Token] holds under its claim names. *)
Inductive tokenValue :=
| TString (s : string)
| TTime (t : Time)
| TProfile (c : Claims).

(** [paseto.Token]: the claims of the encrypted body and the clear footer. *)
Record PasetoToken := {
  body : gmap string tokenValue;
  footer : string }.

Definition NewToken : PasetoToken := {| body := ∅; footer := "" |}.

Definition setClaim (k : string) (v : tokenValue) (t : PasetoToken) : PasetoToken :=
  {| body := <[k := v]> (body t); footer := footer t |}.

(** The token keeps a time as RFC 3339 text of whole seconds: what a time
    claim holds is the instant cut down to its second. *)
Definition wholeSecond (t : Time) : Time := t - t mod Second.

Definition SetSubject (sub : string) := setClaim "sub" (TString sub).
Definition SetIssuedAt (at_ : Time) := setClaim "iat" (TTime (wholeSecond at_)).
Definition SetNotBefore (at_ : Time) := setClaim "nbf" (TTime (wholeSecond at_)).
Definition SetExpiration (at_ : Time) := setClaim "exp" (TTime (wholeSecond at_)).
Definition SetFooter (f : string) (t : PasetoToken) : PasetoToken :=
  {| body := body t; footer := f |}.

(** [t.Set(key, claims)]: encoding a [Claims], three strings, cannot fail. *)
Definition Set_ (k : string) (c : Claims) (t : PasetoToken) : outcome PasetoToken :=
  Ok (setClaim k (TProfile c) t).

(** [t.Get(key, claims)] into a fresh [Claims]; [None] when it returns an
    error: the key is absent, or its value does not decode as [Claims]. *)
Definition Get (k : string) (t : PasetoToken) : option Claims :=
  match body t !! k with
  | Some (TProfile c) => Some c
  | _ => None
  end.

(** [paseto.Rule] *)
Inductive Rule :=
| NotExpired
| ValidAt (t : Time).

(** What the service takes from bcrypt, paseto and [time]. *)
Class Libraries := {
  (* whether [bcrypt.CompareHashAndPassword(hash, password)] returns [nil] *)
  CompareHashAndPassword : string → string → bool;
  (* [t.V4Encrypt(key, nil)] *)
  V4Encrypt : PasetoToken → V4SymmetricKey → string;
  (* [paseto.MakeParser(rules).ParseV4Local(key, tainted, nil)]; [None]
     when it returns an error *)
  ParseV4Local : list Rule → V4SymmetricKey → string → option PasetoToken;
  (* [t.Format(time.RFC3339)] *)
  Format_RFC3339 : Time → string }.

(** ** The service: login, refresh and minting (service.go) *)

Record Token := { Access : string; Refresh : string }.

Record LoginReq := { req_Username : string; req_Password : string }.

Record NewTokenReq := { req_Token : string }.

Definition usernamePasswordMessage : string :=
  "Your credentials not valid. Please check your username and password and try again.".

Definition tokenMessage : string :=
  "Your credentials not valid. Please check your token and try again.".

Definition Validate (r : LoginReq) : option error :=
  let violations : list FieldViolation := [] in
  let violations :=
    if decide (req_Username r = "")
    then violations ++ [ {| Field := "username";
                            Description := "Username must not be empty" |} ]
    else violations in
  let violations :=
    if decide (req_Password r = "")
    then violations ++ [ {| Field := "password";
                            Description := "Password must not be empty" |} ]
    else violations in
  if decide (0 < length violations)%nat
  then Some (ErrStatus InvalidArgument
      "Credentials are not valid or incomplete. Please check the errors and try again, see details for more information."
      violations)
  else None.

Definition IsEnabled (u : User) : bool :=
  bool_decide (Status u = Status.StatusEnabled).

Definition toClaims (u : User) : Claims :=
  {| claims_ID := ID u; claims_Username := Username u;
     claims_DisplayName := DisplayName u |}.

Definition lift {A} (o : outcome A) : M A := λ log, (o, log).

Section Service.
Context `{Libraries}.

Definition ComparePassword (u : User) (password : string) : bool :=
  CompareHashAndPassword (hashedPassword u) password.

(** [genToken]; [now] is what [time.Now()] returns in it. *)
Definition genToken (s : Auth) (u : User) (now : Time) : outcome Token :=
  let t := NewToken in
  let t := SetSubject (Username u) t in
  let t := SetIssuedAt now t in
  let t := SetNotBefore now t in
  let t := SetExpiration (Add now Hour) t in
  let t := SetFooter (Format_RFC3339 now) t in
  match Set_ "profile" (toClaims u) t with
  | Err err => Err (ErrWrap "failed to set claims: " err)
  | Panic msg => Panic msg
  | Ok t =>
      let accessToken := V4Encrypt t (aKey s) in
      let t := SetExpiration (Add now (Hour * 24 * 7)) t in
      let refreshToken := V4Encrypt t (rKey s) in
      Ok {| Access := accessToken; Refresh := refreshToken |}
  end.

(** [Login]; [now] is the reading of the clock in [genToken]. *)
Definition Login (s : Auth) (in_ : LoginReq) (now : Time) : M Token :=
  match Validate in_ with
  | Some err => fail err
  | None =>
      r ← attempt (getUserByUsername (db s) (req_Username in_));
      match r with
      | inl err =>
          if errors_Is_UserNotFound err
          then fail (rpcstatus_Error Unauthenticated usernamePasswordMessage)
          else fail err
      | inr user =>
          if negb (ComparePassword user (req_Password in_))
          then fail (rpcstatus_Error Unauthenticated usernamePasswordMessage)
          else if negb (IsEnabled user)
          then fail (rpcstatus_Error Unauthenticated tokenMessage)
          else lift (genToken s user now)
      end
  end.

(** [RefreshToken]; [now0] is the reading of the clock handed to
    [paseto.ValidAt], [now] the later one in [genToken]. *)
Definition RefreshToken (s : Auth) (in_ : NewTokenReq) (now0 now : Time)
  : M Token :=
  if decide (req_Token in_ = "")
  then fail (rpcstatus_Error Unauthenticated tokenMessage)
  else
    let rules := [NotExpired; ValidAt now0] in
    match ParseV4Local rules (rKey s) (req_Token in_) with
    | None => fail (rpcstatus_Error Unauthenticated tokenMessage)
    | Some t =>
        match Get "profile" t with
        | None => fail (rpcstatus_Error Unauthenticated tokenMessage)
        | Some claims =>
            r ← attempt (getUserByUsername (db s) (claims_Username claims));
            match r with
            | inl err =>
                if errors_Is_UserNotFound err
                then fail (rpcstatus_Error Unauthenticated tokenMessage)
                else fail err
            | inr user =>
                if negb (IsEnabled user)
                then fail (rpcstatus_Error Unauthenticated tokenMessage)
                else lift (genToken s user now)
            end
        end
    end.

(** [Profile] *)
Definition Profile (s : Auth) (ctx : Context) : M User :=
  claims ← deref (ClaimsFromContext ctx);
  r ← attempt (getUserByUsername (db s) (claims_Username claims));
  match r with
  | inl err =>
      if errors_Is_UserNotFound err
      then fail (rpcstatus_Error PermissionDenied
        "You are not allowed to access this resource or (it may not exist)")
      else fail err
  | inr user => mret user
  end.

End Service.

(** ** The rest of the package *)

(** [(s status) Value()] *)
Definition status_Value (s : Status.status) : outcome Status.src :=
  Ok (Status.SrcString (Status.String s)).

Section Plain.
Context `{Libraries}.

(** The token [genToken] encrypts under the access key. *)
Definition accessPlain (u : User) (now : Time) : PasetoToken :=
  setClaim "profile" (TProfile (toClaims u))
    (SetFooter (Format_RFC3339 now)
       (SetExpiration (Add now Hour)
          (SetNotBefore now
             (SetIssuedAt now (SetSubject (Username u) NewToken))))).

(** The token [genToken] encrypts under the refresh key. *)
Definition refreshPlain (u : User) (now : Time) : PasetoToken :=
  SetExpiration (Add now (Hour * 24 * 7)) (accessPlain u now).

End Plain.

(** ** Sample data *)

Definition demoTables : Tables :=
  {| user_has_role := [("ann", "A"); ("ann", "B"); ("bob", "B")];
     role := [(1, "A", "Role A"); (2, "B", "Role B"); (3, "C", "Role C")];
     role_has_permission :=
       [("A", "x:read"); ("B", "x:read"); ("B", "x:write"); ("C", "y:read")] |}.

Definition claimsOf (username : string) : Claims :=
  {| claims_ID := "1"; claims_Username := username; claims_DisplayName := "" |}.

Definition roleA : Role :=
  {| role_ID := 1; role_Name := "A"; role_DisplayName := "Role A";
     role_Permissions := ["x:read"] |}.

Definition roleB : Role :=
  {| role_ID := 2; role_Name := "B"; role_DisplayName := "Role B";
     role_Permissions := ["x:read"; "x:write"] |}.

Definition userRow (username password : string) (st : Status.src) : RowReply :=
  RowFound {| col_id := "id-" +:+ username; col_username := username;
              col_display_name := username;
              col_hash_password := "hash:" +:+ password;
              col_status := st; col_created_at := 0; col_created_by := "root";
              col_updated_at := 0; col_updated_by := "root" |}.

Definition demoUsers (username : string) : RowReply :=
  if decide (username = "ann") then
    userRow "ann" "ann-secret" (Status.SrcString "ENABLED")
  else if decide (username = "dora") then
    userRow "dora" "dora-secret" (Status.SrcString "DISABLED")
  else RowFail ErrNoRows.

Definition demoService : Auth :=
  {| db := tablePool demoUsers demoTables;
     aKey := "access-key"; rKey := "refresh-key" |}.

Definition demoToken (username : string) : PasetoToken :=
  {| body := {[ "profile" := TProfile (claimsOf username) ]}; footer := "" |}.

(** Stand-ins for the libraries: a password matches the hash made of it, a
    token is its key and the username it was made for. *)
Definition demoLibraries : Libraries :=
  {| CompareHashAndPassword := λ hash password,
       bool_decide (hash = "hash:" +:+ password);
     V4Encrypt := λ t key,
       match body t !! "sub" with
       | Some (TString sub) => key +:+ "/" +:+ sub
       | _ => key
       end;
     ParseV4Local := λ rules key tainted,
       if decide (tainted = key +:+ "/dora") then Some (demoToken "dora")
       else if decide (tainted = key +:+ "/zoe") then Some (demoToken "zoe")
       else None;
     Format_RFC3339 := λ t, pretty t |}.

Definition annUser : User :=
  {| ID := "id-ann"; Username := "ann"; DisplayName := "ann";
     Status := Status.StatusEnabled; CreatedAt := 0;
     hashedPassword := "hash:ann-secret"; createdBy := "root";
     updatedBy := "root"; updatedAt := 0 |}.

(** As [demoLibraries], with a parser that opens the refresh token minted
    for ann at time 5. *)
Definition loopLibraries : Libraries :=
  {| CompareHashAndPassword := @CompareHashAndPassword demoLibraries;
     V4Encrypt := @V4Encrypt demoLibraries;
     ParseV4Local := λ rules key tainted,
       if decide (tainted = key +:+ "/ann")
       then Some (@refreshPlain demoLibraries annUser 5)
       else None;
     Format_RFC3339 := @Format_RFC3339 demoLibraries |}.

Definition doraUser : User :=
  {| ID := "id-dora"; Username := "dora"; DisplayName := "dora";
     Status := Status.StatusDisabled; CreatedAt := 0;
     hashedPassword := "hash:dora-secret"; createdBy := "root";
     updatedBy := "root"; updatedAt := 0 |}.

Definition widerTables : Tables :=
  {| user_has_role := ("bob", "C") :: user_has_role demoTables;
     role := role demoTables;
     role_has_permission := role_has_permission demoTables |}.

Definition widerService : Auth :=
  {| db := tablePool demoUsers widerTables;
     aKey := "access-key"; rKey := "refresh-key" |}.

(** A store in trouble: the role query breaks at its second row, one user
    row has a status text outside the table, one has no status at all. *)
Definition brokenPool : Pool :=
  {| QueryRow_user := λ username,
       if decide (username = "odd") then
         userRow "odd" "odd-secret" (Status.SrcString "ARCHIVED")
       else if decide (username = "nul") then
         userRow "nul" "nul-secret" Status.SrcNil
       else RowFail (ErrDriver "connection refused");
     Query_roles := λ _,
       QueryRows [RoleScanned roleA; RoleScanFail (ErrDriver "wrong array");
                  RoleScanned roleB]
                 (Some (ErrDriver "context canceled")) |}.

Definition brokenService : Auth :=
  {| db := brokenPool; aKey := "access-key"; rKey := "refresh-key" |}.

(** Tables that assign role A to the empty username. *)
Definition ghostTables : Tables :=
  {| user_has_role := ("", "A") :: user_has_role demoTables;
     role := role demoTables;
     role_has_permission := role_has_permission demoTables |}.

Definition ghostService : Auth :=
  {| db := tablePool demoUsers ghostTables;
     aKey := "access-key"; rKey := "refresh-key" |}.

(** * Properties *)

(** ** The status codec *)

Example ex_Atoi_signed : Atoi "-12" = Some (-12) ∧ Atoi "+7" = Some 7.
Proof. split; vm_compute; reflexivity. Qed.

Example ex_Atoi_refused :
  Atoi "" = None ∧ Atoi "+" = None ∧ Atoi "1_0" = None ∧ Atoi "0x10" = None
  ∧ Atoi " 1" = None ∧ Atoi "9223372036854775808" = None.
Proof. repeat split; vm_compute; reflexivity. Qed.

Example ex_Atoi_bounds :
  Atoi "9223372036854775807" = Some maxInt
  ∧ Atoi "-9223372036854775808" = Some minInt.
Proof. split; vm_compute; reflexivity. Qed.

Example ex_unmarshal_enabled :
  Status.UnmarshalJSON 0 (quoted "ENABLED") = Ok Status.StatusEnabled.
Proof. vm_compute. reflexivity. Qed.

Example ex_unmarshal_bogus :
  Status.UnmarshalJSON 0 (quoted "BOGUS") = Err (ErrNew "invalid status: BOGUS").
Proof. vm_compute. reflexivity. Qed.

Example ex_unmarshal_short :
  Status.UnmarshalJSON 0 "5"
  = Panic "runtime error: slice bounds out of range [1:0]".
Proof. vm_compute. reflexivity. Qed.

Example ex_unmarshal_null :
  Status.UnmarshalJSON Status.StatusDisabled "null" = Ok Status.StatusDisabled.
Proof. vm_compute. reflexivity. Qed.

(** The first and last byte go, quotes or not. *)
Example ex_unmarshal_unquoted :
  Status.UnmarshalJSON 0 "123" = Ok Status.StatusTerminated.
Proof. vm_compute. reflexivity. Qed.

Example ex_scan_enabled :
  Status.Scan 0 (Status.SrcString "ENABLED") = Ok Status.StatusEnabled.
Proof. vm_compute. reflexivity. Qed.

Example ex_scan_null :
  Status.Scan Status.StatusDisabled Status.SrcNil = Ok Status.StatusDisabled.
Proof. reflexivity. Qed.

Example ex_scan_bytes :
  Status.Scan 0 (Status.SrcBytes "AB") = Err (ErrNew "invalid status: [65 66]").
Proof. vm_compute. reflexivity. Qed.

(** ** The role query *)

Example ex_rolesQuery_ann :
  rolesQuery demoTables "ann" =
  [ {| role_ID := 1; role_Name := "A"; role_DisplayName := "Role A";
       role_Permissions := ["x:read"] |};
    {| role_ID := 2; role_Name := "B"; role_DisplayName := "Role B";
       role_Permissions := ["x:read"; "x:write"] |} ].
Proof. vm_compute. reflexivity. Qed.

Example ex_rolesQuery_nobody : rolesQuery demoTables "eve" = [].
Proof. vm_compute. reflexivity. Qed.

(** ** The access decision *)

Example ex_CanI_granted :
  run (CanI demoService (ContextWithClaims Background (Some (claimsOf "ann")))
         ["x:write"; "x:read"])
  = (Ok tt, [QueryRoles "ann"]).
Proof. vm_compute. reflexivity. Qed.

Example ex_CanI_denied :
  run (CanI demoService (ContextWithClaims Background (Some (claimsOf "bob")))
         ["y:read"; "x:read"; "z:read"])
  = (Err (rpcstatus_Error PermissionDenied
       "You do not have sufficient permissions. Required [y:read z:read] to perform this action"),
     [QueryRoles "bob"]).
Proof. vm_compute. reflexivity. Qed.

Example ex_CanI_nil_claims :
  result (CanI demoService (ContextWithClaims Background None) ["x:read"])
  = Panic "runtime error: invalid memory address or nil pointer dereference".
Proof. vm_compute. reflexivity. Qed.

Example ex_missing_1 :
  checkMissingPermissions ["x:read"; "x:write"] ["x:read"] = ["x:write"].
Proof. vm_compute. reflexivity. Qed.

Example ex_missing_2 :
  checkMissingPermissions ["x:read"] ["x:read"; "x:write"] = [].
Proof. vm_compute. reflexivity. Qed.

Lemma havingSet_acc (having : list string) (set : gset string) :
  foldl (λ set p, {[p]} ∪ set) set having = list_to_set having ∪ set.
Proof.
  revert set. induction having as [|p having IH]; intros set; cbn [foldl].
  - by rewrite list_to_set_nil, (left_id_L ∅ (∪)).
  - rewrite IH, list_to_set_cons, (assoc_L (∪)).
    by rewrite (comm_L (∪) (list_to_set having) {[p]}).
Qed.

Lemma havingSet_list_to_set (having : list string) :
  havingSet having = list_to_set having.
Proof. unfold havingSet. by rewrite havingSet_acc, (right_id_L ∅ (∪)). Qed.

Lemma elem_of_havingSet (p : string) (having : list string) :
  p ∈ havingSet having ↔ p ∈ having.
Proof. rewrite havingSet_list_to_set. apply elem_of_list_to_set. Qed.

Lemma missing_acc (set : gset string) (having wanted acc : list string) :
  (∀ p, p ∈ set ↔ p ∈ having) →
  foldl (λ missing p, if decide (p ∈ set) then missing else missing ++ [p])
        acc wanted
  = acc ++ filter (λ p, p ∉ having) wanted.
Proof.
  intros Hset. revert acc.
  induction wanted as [|p wanted IH]; intros acc; simpl.
  - by rewrite app_nil_r.
  - rewrite IH. destruct (decide (p ∈ set)) as [Hin|Hout].
    + rewrite filter_cons_False; [done|]. intros Hn. apply Hn, Hset, Hin.
    + rewrite filter_cons_True; [|by rewrite <- Hset].
      by rewrite <- app_assoc.
Qed.

Lemma checkMissingPermissions_filter (wanted having : list string) :
  checkMissingPermissions wanted having = filter (λ p, p ∉ having) wanted.
Proof.
  unfold checkMissingPermissions.
  rewrite (missing_acc _ having); [done|]. intros p. apply elem_of_havingSet.
Qed.

Lemma roleToPermissions_acc (rs : list Role) (ps : list string) :
  foldl (λ ps r, ps ++ role_Permissions r) ps rs
  = ps ++ mjoin (role_Permissions <$> rs).
Proof.
  revert ps. induction rs as [|r rs IH]; intros ps; simpl.
  - by rewrite app_nil_r.
  - rewrite IH. by rewrite <- app_assoc.
Qed.

Lemma roleToPermissions_concat (rs : list Role) :
  roleToPermissions rs = mjoin (role_Permissions <$> rs).
Proof. unfold roleToPermissions. by rewrite roleToPermissions_acc. Qed.

Lemma elem_of_roleToPermissions (p : string) (rs : list Role) :
  p ∈ roleToPermissions rs ↔ ∃ r, r ∈ rs ∧ p ∈ role_Permissions r.
Proof.
  rewrite roleToPermissions_concat, list_elem_of_join. split.
  - intros (l & Hp & Hl). apply list_elem_of_fmap in Hl as (r & -> & Hr). eauto.
  - intros (r & Hr & Hp). exists (role_Permissions r). split; [done|].
    apply list_elem_of_fmap. eauto.
Qed.

(** What [CanI] does once the arguments are in order: one role query for
    the username of the claims, then the decision on the missing list. *)
Lemma CanI_run (s : Auth) (ctx : Context) (claims : Claims)
      (permissions : list string) :
  permissions ≠ [] →
  ClaimsFromContext ctx = Some claims →
  run (CanI s ctx permissions) =
  match run (listRolesByUsername (db s) (claims_Username claims)) with
  | (Ok roles, log) =>
      match checkMissingPermissions permissions (roleToPermissions roles) with
      | [] => (Ok tt, log)
      | missed =>
          (Err (rpcstatus_Error PermissionDenied (permissionDeniedMessage missed)),
           log)
      end
  | (Err e, log) => (Err e, log)
  | (Panic msg, log) => (Panic msg, log)
  end.
Proof.
  intros Hne Hctx. unfold CanI, run.
  destruct (decide (length permissions = 0%nat)) as [Hl|_].
  { destruct permissions; [done|discriminate]. }
  rewrite Hctx. simpl. unfold mbind, M_bind at 1. simpl.
  unfold mbind, M_bind at 1.
  destruct (listRolesByUsername (db s) (claims_Username claims) [])
    as [[roles|e|msg] log]; [|done|done].
  destruct (checkMissingPermissions permissions (roleToPermissions roles));
    simpl; done.
Qed.

Lemma listRoles_queries (p : Pool) (username : string) :
  snd (run (listRolesByUsername p username)) = [QueryRoles username].
Proof.
  unfold run, listRolesByUsername, mbind, M_bind, issue. simpl.
  destruct (Query_roles p username) as [e|rows rowsErr]; [done|].
  destruct (scanRoles rows []); [done|]. by destruct rowsErr.
Qed.

(** Every error of the role listing is one of its three wrappers. *)
Lemma listRoles_error (p : Pool) (username : string) (e : error) :
  fst (run (listRolesByUsername p username)) = Err e →
  ∃ prefix cause, e = ErrWrap prefix cause.
Proof.
  unfold run, listRolesByUsername, mbind, M_bind, issue. simpl.
  destruct (Query_roles p username) as [e'|rows rowsErr]; simpl.
  { intros [= <-]. eauto. }
  assert (Hscan : ∀ rows rs e0, scanRoles rows rs = inl e0 →
                    ∃ prefix cause, e0 = ErrWrap prefix cause).
  { clear. induction rows as [|[e1|r] rows IH]; intros rs e0; simpl.
    - discriminate.
    - intros [= <-]. eauto.
    - apply IH. }
  destruct (scanRoles rows []) as [e0|rs] eqn:Hs; simpl.
  { intros [= <-]. eauto. }
  destruct rowsErr; simpl; [intros [= <-]; eauto|discriminate].
Qed.

Lemma listRoles_no_panic (p : Pool) (username : string) (msg : string) :
  fst (run (listRolesByUsername p username)) ≠ Panic msg.
Proof.
  unfold run, listRolesByUsername, mbind, M_bind, issue. simpl.
  destruct (Query_roles p username) as [e'|rows rowsErr]; [done|].
  destruct (scanRoles rows []); [done|]. by destruct rowsErr.
Qed.

(** C1: [checkMissingPermissions wanted having] is the sublist of [wanted],
    in the order of [wanted], of the entries that do not occur in [having];
    [CanI], asked for a non-empty list and given the roles of the caller,
    returns without error exactly when that list is empty; and the two
    examples of the specification evaluate as it says. *)
Theorem C1_missing_sublist_and_decision :
  (∀ wanted having : list string,
     checkMissingPermissions wanted having = filter (λ p, p ∉ having) wanted)
  ∧ (∀ (s : Auth) (ctx : Context) (claims : Claims) (roles : list Role)
       (wanted : list string),
       wanted ≠ [] →
       ClaimsFromContext ctx = Some claims →
       result (listRolesByUsername (db s) (claims_Username claims)) = Ok roles →
       (result (CanI s ctx wanted) = Ok tt
        ↔ checkMissingPermissions wanted (roleToPermissions roles) = []))
  ∧ checkMissingPermissions ["x:read"; "x:write"] ["x:read"] = ["x:write"]
  ∧ checkMissingPermissions ["x:read"] ["x:read"; "x:write"] = [].
Proof.
  split; [apply checkMissingPermissions_filter|].
  split; [|split; vm_compute; reflexivity].
  intros s ctx claims roles wanted Hne Hctx Hroles.
  unfold result in *. rewrite (CanI_run s ctx claims wanted Hne Hctx).
  destruct (run (listRolesByUsername (db s) (claims_Username claims)))
    as [[roles'|e|msg] log]; simpl in Hroles; try discriminate.
  injection Hroles as ->.
  destruct (checkMissingPermissions wanted (roleToPermissions roles)); simpl.
  - done.
  - split; discriminate.
Qed.

Lemma C1_missing_sublist_and_decision_witness :
  result (CanI demoService (ContextWithClaims Background (Some (claimsOf "ann")))
            ["x:read"; "x:write"]) = Ok tt
  ↔ checkMissingPermissions ["x:read"; "x:write"]
      (roleToPermissions (rolesQuery demoTables "ann")) = [].
Proof.
  apply (proj1 (proj2 C1_missing_sublist_and_decision)
           demoService _ (claimsOf "ann")).
  - discriminate.
  - reflexivity.
  - vm_compute. reflexivity.
Defined.

(** ** The effective permission set *)

Lemma elem_of_effective (p : string) (rs : list Role) :
  p ∈ havingSet (roleToPermissions rs) ↔ ∃ r, r ∈ rs ∧ p ∈ role_Permissions r.
Proof. by rewrite elem_of_havingSet, elem_of_roleToPermissions. Qed.

Lemma roleToPermissions_cons (g : Role) (gs : list Role) :
  roleToPermissions (g :: gs) = role_Permissions g ++ roleToPermissions gs.
Proof. by rewrite !roleToPermissions_concat. Qed.

Lemma elem_of_addToGroup (p : string) (row : Z * string * string * string)
      (gs : list Role) :
  p ∈ roleToPermissions (addToGroup row gs)
  ↔ p = row.2 ∨ p ∈ roleToPermissions gs.
Proof.
  destruct row as [[[id name] display] perm]. simpl snd.
  induction gs as [|g gs IH].
  - cbn [addToGroup]. rewrite roleToPermissions_cons. cbn [role_Permissions].
    rewrite elem_of_app, list_elem_of_singleton. done.
  - cbn [addToGroup]. destruct (decide _) as [Hk|Hk].
    + rewrite !roleToPermissions_cons. cbn [role_Permissions].
      rewrite !elem_of_app, list_elem_of_singleton. tauto.
    + rewrite !roleToPermissions_cons, !elem_of_app, IH. tauto.
Qed.

Lemma elem_of_grouped (p : string) (rows : list (Z * string * string * string))
      (gs : list Role) :
  p ∈ roleToPermissions (foldl (λ gs row, addToGroup row gs) gs rows)
  ↔ p ∈ roleToPermissions gs ∨ ∃ row, row ∈ rows ∧ row.2 = p.
Proof.
  revert gs. induction rows as [|row rows IH]; intros gs; cbn [foldl].
  - split; [auto|]. intros [Hp|(row & Hin & _)]; [done|].
    by apply elem_of_nil in Hin.
  - rewrite IH, elem_of_addToGroup. split.
    + intros [[->|Hp]|(row' & Hin & Hrow)]; [right|by left|right].
      * exists row. split; [by left|done].
      * exists row'. split; [by right|done].
    + intros [Hp|(row' & Hin & Hrow)]; [by left; right|].
      apply elem_of_cons in Hin as [->|Hin]; [by left; left|].
      right. eauto.
Qed.

Lemma elem_of_joinedRows (t : Tables) (username : string)
      (row : Z * string * string * string) :
  row ∈ joinedRows t username
  ↔ (username, row.1.1.2) ∈ user_has_role t
    ∧ row.1 ∈ role t
    ∧ (row.1.1.2, row.2) ∈ role_has_permission t.
Proof.
  unfold joinedRows. rewrite list_elem_of_bind. split.
  - intros ([u rn] & Hrow & Hur). apply list_elem_of_filter in Hur as [Hu Hur].
    simpl in Hu. subst u. apply list_elem_of_bind in Hrow as (r & Hrow & Hr).
    apply list_elem_of_filter in Hr as [Hname Hr]. simpl in Hname.
    apply list_elem_of_bind in Hrow as ([rn' p] & Hrow & Hrh).
    apply list_elem_of_filter in Hrh as [Hrn Hrh]. simpl in Hrn. subst rn'.
    apply list_elem_of_singleton in Hrow. subst row. simpl.
    destruct r as [[id name] display]. simpl in *. subst name. done.
  - destruct row as [[[id name] display] p]. simpl. intros (Hur & Hr & Hrh).
    exists (username, name). split.
    + apply list_elem_of_bind. exists (id, name, display). split.
      * apply list_elem_of_bind. exists (name, p). split.
        -- by apply list_elem_of_singleton.
        -- by apply list_elem_of_filter.
      * by apply list_elem_of_filter.
    + by apply list_elem_of_filter.
Qed.

Lemma elem_of_resolved (t : Tables) (username p : string) :
  p ∈ havingSet (roleToPermissions (rolesQuery t username))
  ↔ ∃ id name display,
      (username, name) ∈ user_has_role t
      ∧ (id, name, display) ∈ role t
      ∧ (name, p) ∈ role_has_permission t.
Proof.
  rewrite elem_of_havingSet. unfold rolesQuery. rewrite elem_of_grouped. split.
  - intros [Hp|([[[id name] display] p'] & Hrow & Hp)].
    { by apply elem_of_nil in Hp. }
    simpl in Hp. subst p'. apply elem_of_joinedRows in Hrow. simpl in Hrow.
    exists id, name, display. done.
  - intros (id & name & display & Hur & Hr & Hrh). right.
    exists (id, name, display, p). split; [|done].
    by apply elem_of_joinedRows.
Qed.

(** C4: the set of permissions the access decision works with, built by
    [checkMissingPermissions] from [roleToPermissions roles], is the union
    of the permission sets of the roles; a name is in it exactly when some
    role has it, however many roles do; over the tables, it holds the
    permissions granted to a role assigned to the username; for the roles
    A with x:read and B with x:read and x:write it is the two-element set
    of x:read and x:write. *)
Theorem C4_effective_permissions_are_the_union :
  (∀ rs : list Role,
     havingSet (roleToPermissions rs)
     = ⋃ ((λ r, list_to_set (role_Permissions r) : gset string) <$> rs))
  ∧ (∀ (rs : list Role) (p : string),
       p ∈ havingSet (roleToPermissions rs)
       ↔ ∃ r, r ∈ rs ∧ p ∈ role_Permissions r)
  ∧ (∀ (t : Tables) (username p : string),
       p ∈ havingSet (roleToPermissions (rolesQuery t username))
       ↔ ∃ id name display,
           (username, name) ∈ user_has_role t
           ∧ (id, name, display) ∈ role t
           ∧ (name, p) ∈ role_has_permission t)
  ∧ havingSet (roleToPermissions [roleA; roleB]) = {[ "x:read"; "x:write" ]}
  ∧ size (havingSet (roleToPermissions [roleA; roleB])) = 2%nat.
Proof.
  split; [|split; [intros; apply elem_of_effective|
                   split; [intros; apply elem_of_resolved|]]].
  - intros rs. apply set_eq. intros p.
    rewrite elem_of_effective, elem_of_union_list. split.
    + intros (r & Hr & Hp).
      exists (list_to_set (role_Permissions r)). split.
      * apply list_elem_of_fmap. eauto.
      * by apply elem_of_list_to_set.
    + intros (X & HX & Hp). apply list_elem_of_fmap in HX as (r & -> & Hr).
      exists r. split; [done|]. by apply elem_of_list_to_set in Hp.
  - assert (Hset : havingSet (roleToPermissions [roleA; roleB])
                   = {[ "x:read"; "x:write" ]}).
    { apply set_eq. intros p. rewrite elem_of_havingSet.
      change (roleToPermissions [roleA; roleB])
        with ["x:read"; "x:read"; "x:write"].
      rewrite !elem_of_cons, elem_of_nil, elem_of_union, !elem_of_singleton.
      tauto. }
    split; [exact Hset|]. rewrite Hset.
    rewrite size_union, !size_singleton; [done|].
    intros p. rewrite !elem_of_singleton. intros -> [=].
Qed.

(** ** The permission check *)

(** C5, as the code has it: asked for no permission at all, [CanI]
    returns the error [no permissions specified], whatever the context and
    the store hold, and leaves the log of queries as it found it: nothing
    was asked of the store. The error is a plain one: it carries no status
    code, so it is not an error of code [InvalidArgument]. *)
Theorem C5_empty_want_rejected_before_resolution (s : Auth) (ctx : Context) :
  (∀ log : list query,
     CanI s ctx [] log = (Err (ErrNew "no permissions specified"), log))
  ∧ result (CanI s ctx []) = Err (ErrNew "no permissions specified")
  ∧ queries (CanI s ctx []) = []
  ∧ (∀ c msg ds, ErrNew "no permissions specified" ≠ ErrStatus c msg ds)
  ∧ ¬ isInvalidArgument (ErrNew "no permissions specified").
Proof.
  split; [|split; [|split; [|split]]].
  - intros log. unfold CanI. by destruct (decide (length [] = 0%nat)).
  - reflexivity.
  - reflexivity.
  - intros c msg ds. discriminate.
  - intros (msg & ds & Heq). discriminate Heq.
Qed.

Lemma C5_empty_want_rejected_before_resolution_witness :
  run (CanI demoService (ContextWithClaims Background None) [])
  = (Err (ErrNew "no permissions specified"), [])
  ∧ ¬ isInvalidArgument (ErrNew "no permissions specified").
Proof.
  pose proof (C5_empty_want_rejected_before_resolution demoService
                (ContextWithClaims Background None)) as (Hrun & _ & _ & _ & Hno).
  split; [exact (Hrun [])|exact Hno].
Defined.

(** Against C5 as the specification words it: the error [CanI] returns for
    an empty list is not one of code [InvalidArgument]. *)
Lemma C5_not_an_invalid_argument_status :
  result (CanI demoService Background []) = Err (ErrNew "no permissions specified")
  ∧ ¬ (∃ e, result (CanI demoService Background []) = Err e
            ∧ isInvalidArgument e).
Proof.
  split; [reflexivity|].
  intros (e & He & (msg & ds & ->)). discriminate He.
Qed.

Lemma joinedRows_nil (t : Tables) (username : string) :
  (∀ ur, ur ∈ user_has_role t → ur.1 ≠ username) →
  joinedRows t username = [].
Proof.
  intros Hno. unfold joinedRows.
  assert (Hf : filter (λ ur : string * string, ur.1 = username)
                 (user_has_role t) = []).
  { induction (user_has_role t) as [|ur l IH]; [done|].
    rewrite filter_cons_False.
    - apply IH. intros ur' Hin. apply Hno. by right.
    - apply Hno. by left. }
  by rewrite Hf.
Qed.

Lemma rolesQuery_nil (t : Tables) (username : string) :
  (∀ ur, ur ∈ user_has_role t → ur.1 ≠ username) →
  rolesQuery t username = [].
Proof. intros Hno. unfold rolesQuery. by rewrite joinedRows_nil. Qed.

Lemma checkMissing_nothing_had (wanted : list string) :
  checkMissingPermissions wanted [] = wanted.
Proof.
  rewrite checkMissingPermissions_filter.
  induction wanted as [|p wanted IH]; [done|].
  rewrite filter_cons_True; [by rewrite IH|]. apply not_elem_of_nil.
Qed.

(** C7: for a principal to whom the tables assign no role, the role
    listing returns the empty list and no error, the permission set built
    from it is empty, and every check for a non-empty list of permissions
    fails with PermissionDenied, its message enumerating all the requested
    names. *)
Theorem C7_no_roles_empty_set_and_denied
    (users : string → RowReply) (t : Tables) (s : Auth) (ctx : Context)
    (claims : Claims)
    (Hdb : db s = tablePool users t)
    (Hctx : ClaimsFromContext ctx = Some claims)
    (Hnone : ∀ ur, ur ∈ user_has_role t → ur.1 ≠ claims_Username claims) :
  result (listRolesByUsername (db s) (claims_Username claims)) = Ok []
  ∧ havingSet (roleToPermissions []) = ∅
  ∧ ∀ wanted : list string, wanted ≠ [] →
      result (CanI s ctx wanted)
      = Err (rpcstatus_Error PermissionDenied (permissionDeniedMessage wanted))
      ∧ isPermissionDenied
          (rpcstatus_Error PermissionDenied (permissionDeniedMessage wanted)).
Proof.
  assert (Hroles : run (listRolesByUsername (db s) (claims_Username claims))
                   = (Ok [], [QueryRoles (claims_Username claims)])).
  { rewrite Hdb. unfold run, listRolesByUsername, mbind, M_bind, issue. simpl.
    by rewrite (rolesQuery_nil t _ Hnone). }
  split; [unfold result; by rewrite Hroles|]. split; [done|].
  intros wanted Hne. split; [|unfold isPermissionDenied, rpcstatus_Error; eauto].
  unfold result. rewrite (CanI_run s ctx claims wanted Hne Hctx), Hroles.
  change (roleToPermissions []) with (@nil string).
  rewrite checkMissing_nothing_had. by destruct wanted.
Qed.

Lemma C7_no_roles_empty_set_and_denied_witness :
  result (CanI demoService (ContextWithClaims Background (Some (claimsOf "eve")))
            ["x:read"; "y:read"])
  = Err (rpcstatus_Error PermissionDenied
      "You do not have sufficient permissions. Required [x:read y:read] to perform this action").
Proof.
  refine (proj1 (proj2 (proj2
    (C7_no_roles_empty_set_and_denied demoUsers demoTables
       demoService (ContextWithClaims Background (Some (claimsOf "eve")))
       (claimsOf "eve") eq_refl eq_refl _)) ["x:read"; "y:read"] _)).
  - intros ur Hin. vm_compute in Hin.
    repeat (apply elem_of_cons in Hin as [->|Hin]; [discriminate|]).
    by apply elem_of_nil in Hin.
  - discriminate.
Defined.

(** C10, as the code has it: from a context that carries no claims value
    [ClaimsFromContext] returns a pointer to the empty [Claims], not nil; a
    check for a non-empty list of permissions under such a context then
    asks the store for the roles of the empty username and for nothing
    else, and never ends in an AuthenticationError; whenever the roles
    listed for the empty username leave some requested permission missing
    (so when there are none), it ends in PermissionDenied naming the
    missing permissions; when they hold every requested permission, it is
    granted. *)
Theorem C10_no_claims_means_empty_claims_and_denial
    (ctx : Context) (Hctx : ¬ carriesClaims ctx) :
  ClaimsFromContext ctx = Some emptyClaims
  ∧ ∀ (s : Auth) (wanted : list string), wanted ≠ [] →
      queries (CanI s ctx wanted) = [QueryRoles ""]
      ∧ (∀ e, result (CanI s ctx wanted) = Err e → ¬ isAuthenticationError e)
      ∧ (∀ roles, result (listRolesByUsername (db s) "") = Ok roles →
           checkMissingPermissions wanted (roleToPermissions roles) ≠ [] →
           result (CanI s ctx wanted)
           = Err (rpcstatus_Error PermissionDenied
                    (permissionDeniedMessage
                       (checkMissingPermissions wanted (roleToPermissions roles)))))
      ∧ (Query_roles (db s) "" = QueryRows [] None →
           result (CanI s ctx wanted)
           = Err (rpcstatus_Error PermissionDenied
                    (permissionDeniedMessage wanted)))
      ∧ (∀ roles, result (listRolesByUsername (db s) "") = Ok roles →
           checkMissingPermissions wanted (roleToPermissions roles) = [] →
           result (CanI s ctx wanted) = Ok tt).
Proof.
  assert (Hdenial :
    ClaimsFromContext ctx = Some emptyClaims
    ∧ ∀ (s : Auth) (wanted : list string), wanted ≠ [] →
        queries (CanI s ctx wanted) = [QueryRoles ""]
        ∧ (∀ e, result (CanI s ctx wanted) = Err e → ¬ isAuthenticationError e)
        ∧ (∀ roles, result (listRolesByUsername (db s) "") = Ok roles →
             checkMissingPermissions wanted (roleToPermissions roles) ≠ [] →
             result (CanI s ctx wanted)
             = Err (rpcstatus_Error PermissionDenied
                      (permissionDeniedMessage
                         (checkMissingPermissions wanted
                            (roleToPermissions roles)))))
        ∧ (Query_roles (db s) "" = QueryRows [] None →
             result (CanI s ctx wanted)
             = Err (rpcstatus_Error PermissionDenied
                      (permissionDeniedMessage wanted)))).
  {
  assert (Hempty : ClaimsFromContext ctx = Some emptyClaims).
  { unfold ClaimsFromContext.
    destruct (Value ctx claimsKey) as [[p|shown]|] eqn:Hv; try done.
    exfalso. apply Hctx. by exists p. }
  split; [exact Hempty|]. intros s wanted Hne.
  pose proof (CanI_run s ctx emptyClaims wanted Hne Hempty) as Hrun.
  simpl in Hrun.
  pose proof (listRoles_queries (db s) "") as Hq.
  pose proof (listRoles_error (db s) "") as He.
  unfold queries, result. rewrite Hrun.
  destruct (run (listRolesByUsername (db s) "")) as [[roles|e|msg] log] eqn:Hl;
    simpl in Hq, He; subst log.
  - destruct (checkMissingPermissions wanted (roleToPermissions roles))
      as [|m missed] eqn:Hm; simpl.
    + split; [done|]. split; [discriminate|]. split.
      * intros roles' [= <-]. by rewrite Hm.
      * intros Hrows. exfalso. revert Hl Hm.
        unfold run, listRolesByUsername, mbind, M_bind, issue. simpl.
        rewrite Hrows. simpl. intros [= <-].
        change (roleToPermissions []) with (@nil string).
        rewrite checkMissing_nothing_had. intros ->. by apply Hne.
    + split; [done|]. split.
      { intros e [= <-] (msg & ds & [=]). }
      split.
      * intros roles' [= <-] _. by rewrite Hm.
      * intros Hrows. revert Hl Hm.
        unfold run, listRolesByUsername, mbind, M_bind, issue. simpl.
        rewrite Hrows. simpl. intros [= <-].
        change (roleToPermissions []) with (@nil string).
        rewrite checkMissing_nothing_had. by intros ->.
  - simpl. split; [done|]. split.
    { intros e' [= <-] (msg & ds & ->). destruct (He _ eq_refl) as (? & ? & [=]). }
    split; [discriminate|].
    intros Hrows. exfalso. revert Hl.
    unfold run, listRolesByUsername, mbind, M_bind, issue. simpl.
    by rewrite Hrows.
  - exfalso. apply (listRoles_no_panic (db s) "" msg). by rewrite Hl. }
  destruct Hdenial as [Hempty Hall]. split; [exact Hempty|].
  intros s wanted Hne. destruct (Hall s wanted Hne) as (Hq & Hauth & Hmiss & Hrows).
  split; [exact Hq|]. split; [exact Hauth|]. split; [exact Hmiss|].
  split; [exact Hrows|].
  intros roles Hroles Hnil. unfold result in *.
  rewrite (CanI_run s ctx emptyClaims wanted Hne Hempty).
  cbn [claims_Username emptyClaims].
  destruct (run (listRolesByUsername (db s) "")) as [[roles'|e|msg] log];
    simpl in Hroles; try discriminate.
  injection Hroles as ->. by rewrite Hnil.
Qed.

Lemma C10_no_claims_means_empty_claims_and_denial_witness :
  ClaimsFromContext (WithValue Background (ForeignKey "trace") (AnyOther "id"))
  = Some emptyClaims
  ∧ result (CanI demoService
              (WithValue Background (ForeignKey "trace") (AnyOther "id"))
              ["x:read"])
    = Err (rpcstatus_Error PermissionDenied (permissionDeniedMessage ["x:read"])).
Proof.
  assert (Hctx : ¬ carriesClaims
            (WithValue Background (ForeignKey "trace") (AnyOther "id"))).
  { intros (p & Hp). discriminate Hp. }
  pose proof (C10_no_claims_means_empty_claims_and_denial _ Hctx) as [H1 H2].
  split; [exact H1|].
  destruct (H2 demoService ["x:read"]) as (_ & _ & _ & H3 & _); [discriminate|].
  apply H3. reflexivity.
Defined.

(** Against C10 as the specification words it: under a context without
    claims the check is granted when the store assigns the empty username
    a role that holds the permission, and ends in the wrapped error of the
    role listing, not in PermissionDenied, when the listing fails. *)
Lemma C10_empty_username_may_pass :
  ¬ carriesClaims Background
  ∧ result (CanI ghostService Background ["x:read"]) = Ok tt
  ∧ result (CanI brokenService Background ["x:read"])
    = Err (ErrWrap "failed to scan row: " (ErrDriver "wrong array"))
  ∧ ¬ isPermissionDenied (ErrWrap "failed to scan row: " (ErrDriver "wrong array")).
Proof.
  split; [intros (p & Hp); discriminate Hp|].
  split; [vm_compute; reflexivity|]. split; [vm_compute; reflexivity|].
  intros (msg & ds & Heq). discriminate Heq.
Qed.

(** ** Decoding a status *)

Lemma length_append (s t : string) :
  String.length (s +:+ t) = (String.length s + String.length t)%nat.
Proof. induction s as [|c s IH]; simpl; [done|]. by rewrite IH. Qed.

Lemma substring_append_prefix (s t : string) :
  substring 0 (String.length s) (s +:+ t) = s.
Proof. induction s as [|c s IH]; simpl; [by destruct t|]. by rewrite IH. Qed.

Lemma len_quoted (s : string) : len (quoted s) = len s + 2.
Proof. unfold len, quoted. cbn [String.length]. rewrite length_append. simpl. lia. Qed.

Lemma slice_quoted (s : string) :
  slice (quoted s) 1 (len (quoted s) - 1) = Ok s.
Proof.
  unfold slice. rewrite len_quoted.
  assert (Hc : (0 <=? 1) && (1 <=? len s + 2 - 1)
               && (len s + 2 - 1 <=? len s + 2) = true).
  { unfold len. rewrite !andb_true_iff, !Z.leb_le. lia. }
  rewrite Hc. f_equal.
  replace (Z.to_nat (len s + 2 - 1 - 1)) with (String.length s)
    by (unfold len; lia).
  change (Z.to_nat 1) with 1%nat. unfold quoted. cbn [substring].
  apply substring_append_prefix.
Qed.

Lemma quoted_not_null (s : string) : quoted s ≠ "null".
Proof. unfold quoted. intros [=]. Qed.

(** C9, as the code has it: a string or a byte slice that is not a name of
    the table is refused by [Scan]; a JSON string whose content is not a
    name of the table is refused by [UnmarshalJSON] unless the content
    reads as a decimal integer, which is then taken as the status of that
    number. *)
Theorem C9_unknown_status_decoding
    (cur : Status.status) (s : string)
    (Hs : Status.statusValues !! s = None) :
  Status.Scan cur (Status.SrcString s) = Err (ErrNew ("invalid status: " +:+ s))
  ∧ Status.Scan cur (Status.SrcBytes s)
    = Err (ErrNew ("invalid status: " +:+ Status.fmt_v (Status.SrcBytes s)))
  ∧ Status.UnmarshalJSON cur (quoted s)
    = match Atoi s with
      | Some v => Ok v
      | None => Err (ErrNew ("invalid status: " +:+ s))
      end.
Proof.
  split; [|split].
  - unfold Status.Scan, Status.status. cbv beta iota zeta. by rewrite Hs.
  - unfold Status.Scan, Status.status. cbv beta iota zeta. by rewrite Hs.
  - unfold Status.UnmarshalJSON.
    destruct (decide (quoted s = "null")) as [Hn|_];
      [by apply quoted_not_null in Hn|].
    rewrite slice_quoted. unfold Status.status. cbv beta iota. rewrite Hs.
    by destruct (Atoi s).
Qed.

Lemma C9_unknown_status_decoding_witness :
  Status.Scan Status.StatusEnabled (Status.SrcString "BOGUS")
  = Err (ErrNew "invalid status: BOGUS")
  ∧ Status.Scan Status.StatusEnabled (Status.SrcBytes "BOGUS")
    = Err (ErrNew "invalid status: [66 79 71 85 83]")
  ∧ Status.UnmarshalJSON Status.StatusEnabled (quoted "BOGUS")
    = Err (ErrNew "invalid status: BOGUS").
Proof.
  apply (C9_unknown_status_decoding Status.StatusEnabled "BOGUS").
  vm_compute. reflexivity.
Defined.

(** Against C9 as the specification words it: the content 7 is no name
    of the table, and its decoding returns the status 7 and no error. *)
Lemma C9_numeric_status_accepted :
  Status.statusValues !! "7" = None
  ∧ Status.UnmarshalJSON Status.StatusUnSpecified (quoted "7") = Ok 7
  ∧ ¬ (∀ (cur : Status.status) (s : string),
         Status.statusValues !! s = None →
         ∃ e, Status.UnmarshalJSON cur (quoted s) = Err e).
Proof.
  assert (H7 : Status.statusValues !! "7" = None) by (vm_compute; reflexivity).
  assert (Hd : Status.UnmarshalJSON Status.StatusUnSpecified (quoted "7") = Ok 7)
    by (vm_compute; reflexivity).
  split; [exact H7|]. split; [exact Hd|].
  intros Hall. destruct (Hall Status.StatusUnSpecified "7" H7) as [e He].
  rewrite Hd in He. discriminate He.
Qed.

(** ** Minting *)

Lemma wholeSecond_add_seconds (t k : Z) :
  wholeSecond (t + k * Second) = wholeSecond t + k * Second.
Proof.
  unfold wholeSecond. rewrite Z_mod_plus_full. lia.
Qed.

Lemma wholeSecond_of_whole (t : Z) : t mod Second = 0 → wholeSecond t = t.
Proof. unfold wholeSecond. intros ->. lia. Qed.

Lemma wholeSecond_bounds (t : Z) : t - Second < wholeSecond t ≤ t.
Proof.
  unfold wholeSecond.
  assert (0 ≤ t mod Second < Second) by (apply Z.mod_pos_bound; reflexivity).
  lia.
Qed.

(** C3, as the code has it: for every principal and mint time, [genToken]
    returns the encryption under the access key of a token whose
    expiration is the mint time cut down to its whole second plus one
    hour, and the encryption under the refresh key of a token that
    expires seven days after that second and is otherwise the same:
    subject the username, issued-at and not-before the mint time cut down
    to its second, footer the mint time in RFC 3339, and the claims of the
    principal under [profile]. At a mint time that is a whole second the
    two expirations are the mint time plus one hour and plus seven days. *)
Theorem C3_minted_pair `{Libraries} (s : Auth) (u : User) (now : Time) :
  ∃ tA tR : PasetoToken,
    genToken s u now
    = Ok {| Access := V4Encrypt tA (aKey s); Refresh := V4Encrypt tR (rKey s) |}
    ∧ tA = accessPlain u now
    ∧ tR = refreshPlain u now
    ∧ body tA !! "exp" = Some (TTime (wholeSecond now + 3600 * 1000000000))
    ∧ body tR !! "exp"
      = Some (TTime (wholeSecond now + 7 * 24 * 3600 * 1000000000))
    ∧ now - 1000000000 < wholeSecond now ≤ now
    ∧ (∀ k, k ≠ "exp" → body tR !! k = body tA !! k)
    ∧ footer tR = footer tA
    ∧ body tA !! "sub" = Some (TString (Username u))
    ∧ body tA !! "iat" = Some (TTime (wholeSecond now))
    ∧ body tA !! "nbf" = Some (TTime (wholeSecond now))
    ∧ body tA !! "profile" = Some (TProfile (toClaims u))
    ∧ footer tA = Format_RFC3339 now
    ∧ (now mod 1000000000 = 0 →
       body tA !! "exp" = Some (TTime (now + 3600 * 1000000000))
       ∧ body tR !! "exp" = Some (TTime (now + 7 * 24 * 3600 * 1000000000))).
Proof.
  exists (accessPlain u now), (refreshPlain u now).
  assert (HexpA : body (accessPlain u now) !! "exp"
                  = Some (TTime (wholeSecond now + 3600 * 1000000000))).
  { transitivity (Some (TTime (wholeSecond (now + 3600 * Second))));
      [reflexivity|].
    by rewrite wholeSecond_add_seconds. }
  assert (HexpR : body (refreshPlain u now) !! "exp"
                  = Some (TTime (wholeSecond now + 7 * 24 * 3600 * 1000000000))).
  { transitivity (Some (TTime (wholeSecond (now + 7 * 24 * 3600 * Second))));
      [reflexivity|].
    by rewrite wholeSecond_add_seconds. }
  split; [reflexivity|]. split; [reflexivity|]. split; [reflexivity|].
  split; [exact HexpA|]. split; [exact HexpR|].
  split; [apply wholeSecond_bounds|].
  split.
  { intros k Hk. unfold refreshPlain, SetExpiration, setClaim. cbn [body].
    by rewrite lookup_insert_ne. }
  repeat (split; [reflexivity|]).
  intros Hwhole. rewrite HexpA, HexpR.
  by rewrite (wholeSecond_of_whole now Hwhole).
Qed.

Lemma C3_minted_pair_witness :
  ∃ tA tR : PasetoToken,
    @genToken demoLibraries demoService annUser 5000000000
    = Ok {| Access := @V4Encrypt demoLibraries tA "access-key";
            Refresh := @V4Encrypt demoLibraries tR "refresh-key" |}
    ∧ body tA !! "exp" = Some (TTime (5000000000 + 3600 * 1000000000))
    ∧ body tR !! "exp" = Some (TTime (5000000000 + 7 * 24 * 3600 * 1000000000)).
Proof.
  destruct (@C3_minted_pair demoLibraries demoService annUser 5000000000)
    as (tA & tR & Hgen & _ & _ & _ & _ & _ & _ & _ & _ & _ & _ & _ & _ & Hwhole).
  exists tA, tR. split; [exact Hgen|]. apply Hwhole. reflexivity.
Defined.

(** Against C3 as the specification words it: minted half a second past a
    whole second, the access token expires one hour after that second, the
    refresh token seven days after it, neither exactly one hour or seven
    days after the mint time. *)
Lemma C3_mint_time_off_the_second :
  @genToken demoLibraries demoService annUser 1500000000
  = Ok {| Access := @V4Encrypt demoLibraries
                      (@accessPlain demoLibraries annUser 1500000000)
                      "access-key";
          Refresh := @V4Encrypt demoLibraries
                       (@refreshPlain demoLibraries annUser 1500000000)
                       "refresh-key" |}
  ∧ body (@accessPlain demoLibraries annUser 1500000000) !! "exp"
    = Some (TTime 3601000000000)
  ∧ body (@refreshPlain demoLibraries annUser 1500000000) !! "exp"
    = Some (TTime 604801000000000)
  ∧ body (@accessPlain demoLibraries annUser 1500000000) !! "exp"
    ≠ Some (TTime (Add 1500000000 Hour))
  ∧ body (@refreshPlain demoLibraries annUser 1500000000) !! "exp"
    ≠ Some (TTime (Add 1500000000 (Hour * 24 * 7))).
Proof.
  assert (HA : body (@accessPlain demoLibraries annUser 1500000000) !! "exp"
               = Some (TTime 3601000000000)) by (vm_compute; reflexivity).
  assert (HR : body (@refreshPlain demoLibraries annUser 1500000000) !! "exp"
               = Some (TTime 604801000000000)) by (vm_compute; reflexivity).
  split; [reflexivity|]. split; [exact HA|]. split; [exact HR|]. split.
  - rewrite HA. vm_compute. discriminate.
  - rewrite HR. vm_compute. discriminate.
Qed.

(** ** Login and refresh *)

Lemma getUser_result (p : Pool) (username : string) :
  result (getUserByUsername p username)
  = match scanUser (QueryRow_user p username) with
    | Err err => if errors_Is_NoRows err then Err ErrUserNotFound else Err err
    | o => o
    end.
Proof.
  unfold result, run, getUserByUsername, mbind, M_bind, issue. simpl.
  destruct (scanUser (QueryRow_user p username)) as [u|e|msg]; [done| |done].
  by destruct (errors_Is_NoRows e).
Qed.

Section ServiceFacts.
Context `{Libraries}.

Lemma genToken_ok (s : Auth) (u : User) (now : Time) :
  ∃ tok, genToken s u now = Ok tok.
Proof. unfold genToken, Set_. eauto. Qed.

Lemma Login_result (s : Auth) (in_ : LoginReq) (now : Time) :
  result (Login s in_ now)
  = match Validate in_ with
    | Some err => Err err
    | None =>
        match result (getUserByUsername (db s) (req_Username in_)) with
        | Err err =>
            if errors_Is_UserNotFound err
            then Err (rpcstatus_Error Unauthenticated usernamePasswordMessage)
            else Err err
        | Panic msg => Panic msg
        | Ok user =>
            if negb (ComparePassword user (req_Password in_))
            then Err (rpcstatus_Error Unauthenticated usernamePasswordMessage)
            else if negb (IsEnabled user)
            then Err (rpcstatus_Error Unauthenticated tokenMessage)
            else genToken s user now
        end
    end.
Proof.
  unfold result, run, Login. destruct (Validate in_); [done|].
  unfold mbind, M_bind, attempt.
  destruct (getUserByUsername (db s) (req_Username in_) [])
    as [[user|e|msg] log]; simpl; [|by destruct (errors_Is_UserNotFound e)|done].
  destruct (negb (ComparePassword user (req_Password in_))); [done|].
  by destruct (negb (IsEnabled user)).
Qed.

Lemma RefreshToken_result (s : Auth) (in_ : NewTokenReq) (now0 now : Time) :
  result (RefreshToken s in_ now0 now)
  = if decide (req_Token in_ = "")
    then Err (rpcstatus_Error Unauthenticated tokenMessage)
    else
      match ParseV4Local [NotExpired; ValidAt now0] (rKey s) (req_Token in_) with
      | None => Err (rpcstatus_Error Unauthenticated tokenMessage)
      | Some t =>
          match Get "profile" t with
          | None => Err (rpcstatus_Error Unauthenticated tokenMessage)
          | Some claims =>
              match result (getUserByUsername (db s) (claims_Username claims)) with
              | Err err =>
                  if errors_Is_UserNotFound err
                  then Err (rpcstatus_Error Unauthenticated tokenMessage)
                  else Err err
              | Panic msg => Panic msg
              | Ok user =>
                  if negb (IsEnabled user)
                  then Err (rpcstatus_Error Unauthenticated tokenMessage)
                  else genToken s user now
              end
          end
      end.
Proof.
  unfold result, run, RefreshToken.
  destruct (decide (req_Token in_ = "")); [done|].
  destruct (ParseV4Local _ _ _) as [t|]; [|done].
  destruct (Get "profile" t) as [claims|]; [|done].
  unfold mbind, M_bind, attempt.
  destruct (getUserByUsername (db s) (claims_Username claims) [])
    as [[user|e|msg] log]; simpl; [|by destruct (errors_Is_UserNotFound e)|done].
  by destruct (negb (IsEnabled user)).
Qed.

Lemma IsEnabled_false (u : User) :
  Status u ≠ Status.StatusEnabled → IsEnabled u = false.
Proof. intros Hne. unfold IsEnabled. by apply bool_decide_eq_false. Qed.

Lemma IsEnabled_true (u : User) :
  IsEnabled u = true → Status u = Status.StatusEnabled.
Proof. unfold IsEnabled. by intros ?%bool_decide_eq_true. Qed.

End ServiceFacts.

Example ex_Login_enabled :
  run (@Login demoLibraries demoService
         {| req_Username := "ann"; req_Password := "ann-secret" |} 5)
  = (Ok {| Access := "access-key/ann"; Refresh := "refresh-key/ann" |},
     [QueryUser "ann"]).
Proof. vm_compute. reflexivity. Qed.

Example ex_Login_invalid :
  run (@Login demoLibraries demoService
         {| req_Username := "ann"; req_Password := "" |} 5)
  = (Err (ErrStatus InvalidArgument
       "Credentials are not valid or incomplete. Please check the errors and try again, see details for more information."
       [ {| Field := "password"; Description := "Password must not be empty" |} ]),
     []).
Proof. vm_compute. reflexivity. Qed.

(** C6: a principal the store returns with a status other than enabled
    can neither log in nor refresh: with a well-formed request, [Login]
    ends in an error of code [Unauthenticated] whatever the password, and
    [RefreshToken], given a token that parses and carries the claims of
    that principal, ends in one too; conversely a token pair is returned
    by [Login] or [RefreshToken] only for a principal whose status is
    enabled. *)
Theorem C6_only_enabled_principals `{Libraries} (s : Auth) :
  (∀ (in_ : LoginReq) (now : Time) (user : User),
     Validate in_ = None →
     result (getUserByUsername (db s) (req_Username in_)) = Ok user →
     Status user ≠ Status.StatusEnabled →
     ∃ msg, result (Login s in_ now)
            = Err (rpcstatus_Error Unauthenticated msg))
  ∧ (∀ (in_ : NewTokenReq) (now0 now : Time) (t : PasetoToken)
       (claims : Claims) (user : User),
       ParseV4Local [NotExpired; ValidAt now0] (rKey s) (req_Token in_) = Some t →
       Get "profile" t = Some claims →
       result (getUserByUsername (db s) (claims_Username claims)) = Ok user →
       Status user ≠ Status.StatusEnabled →
       result (RefreshToken s in_ now0 now)
       = Err (rpcstatus_Error Unauthenticated tokenMessage))
  ∧ (∀ (in_ : LoginReq) (now : Time) (tok : Token),
       result (Login s in_ now) = Ok tok →
       ∃ user, result (getUserByUsername (db s) (req_Username in_)) = Ok user
               ∧ Status user = Status.StatusEnabled)
  ∧ (∀ (in_ : NewTokenReq) (now0 now : Time) (tok : Token),
       result (RefreshToken s in_ now0 now) = Ok tok →
       ∃ t claims user,
         ParseV4Local [NotExpired; ValidAt now0] (rKey s) (req_Token in_) = Some t
         ∧ Get "profile" t = Some claims
         ∧ result (getUserByUsername (db s) (claims_Username claims)) = Ok user
         ∧ Status user = Status.StatusEnabled).
Proof.
  repeat apply conj.
  - intros in_ now user Hval Huser Hst.
    rewrite Login_result, Hval, Huser, (IsEnabled_false user Hst). simpl.
    destruct (negb (ComparePassword user (req_Password in_))); eauto.
  - intros in_ now0 now t claims user Hparse Hget Huser Hst.
    rewrite RefreshToken_result, Hparse, Hget, Huser, (IsEnabled_false user Hst).
    simpl. by destruct (decide (req_Token in_ = "")).
  - intros in_ now tok. rewrite Login_result.
    destruct (Validate in_); [discriminate|].
    destruct (result (getUserByUsername (db s) (req_Username in_)))
      as [user|e|msg] eqn:Huser;
      [| by destruct (errors_Is_UserNotFound e) | discriminate].
    destruct (negb (ComparePassword user (req_Password in_))); [discriminate|].
    destruct (IsEnabled user) eqn:Hen; simpl; [|discriminate].
    intros _. exists user. split; [done|]. by apply IsEnabled_true.
  - intros in_ now0 now tok. rewrite RefreshToken_result.
    destruct (decide (req_Token in_ = "")); [discriminate|].
    destruct (ParseV4Local _ _ _) as [t|] eqn:Hparse; [|discriminate].
    destruct (Get "profile" t) as [claims|] eqn:Hget; [|discriminate].
    destruct (result (getUserByUsername (db s) (claims_Username claims)))
      as [user|e|msg] eqn:Huser;
      [| by destruct (errors_Is_UserNotFound e) | discriminate].
    destruct (IsEnabled user) eqn:Hen; simpl; [|discriminate].
    intros _. exists t, claims, user.
    split; [done|]. split; [done|]. split; [done|].
    by apply IsEnabled_true.
Qed.

Lemma C6_only_enabled_principals_witness :
  (∃ msg,
     result (@Login demoLibraries demoService
               {| req_Username := "dora"; req_Password := "dora-secret" |} 0)
     = Err (rpcstatus_Error Unauthenticated msg))
  ∧ result (@RefreshToken demoLibraries demoService
              {| req_Token := "refresh-key/dora" |} 0 0)
    = Err (rpcstatus_Error Unauthenticated tokenMessage).
Proof.
  pose proof (@C6_only_enabled_principals demoLibraries demoService)
    as (HL & HR & _).
  split.
  - eapply HL.
    + reflexivity.
    + vm_compute. reflexivity.
    + vm_compute. discriminate.
  - eapply HR.
    + vm_compute. reflexivity.
    + vm_compute. reflexivity.
    + vm_compute. reflexivity.
    + vm_compute. discriminate.
Defined.

(** C8: when the store has no row for the username of a well-formed login
    request, or for the username in the claims of a refresh token that
    parses, [Login] and [RefreshToken] return an error of code
    [Unauthenticated] with their usual message; and no error that either
    of them returns is, or wraps, [ErrUserNotFound]. *)
Theorem C8_absent_principal_is_unauthenticated `{Libraries} (s : Auth) :
  (∀ (in_ : LoginReq) (now : Time),
     Validate in_ = None →
     QueryRow_user (db s) (req_Username in_) = RowFail ErrNoRows →
     result (Login s in_ now)
     = Err (rpcstatus_Error Unauthenticated usernamePasswordMessage))
  ∧ (∀ (in_ : NewTokenReq) (now0 now : Time) (t : PasetoToken) (claims : Claims),
       ParseV4Local [NotExpired; ValidAt now0] (rKey s) (req_Token in_) = Some t →
       Get "profile" t = Some claims →
       QueryRow_user (db s) (claims_Username claims) = RowFail ErrNoRows →
       result (RefreshToken s in_ now0 now)
       = Err (rpcstatus_Error Unauthenticated tokenMessage))
  ∧ (∀ (in_ : LoginReq) (now : Time) (e : error),
       result (Login s in_ now) = Err e → errors_Is_UserNotFound e = false)
  ∧ (∀ (in_ : NewTokenReq) (now0 now : Time) (e : error),
       result (RefreshToken s in_ now0 now) = Err e →
       errors_Is_UserNotFound e = false).
Proof.
  repeat apply conj.
  - intros in_ now Hval Hrow.
    by rewrite Login_result, Hval, getUser_result, Hrow.
  - intros in_ now0 now t claims Hparse Hget Hrow.
    rewrite RefreshToken_result, Hparse, Hget, getUser_result, Hrow. simpl.
    by destruct (decide (req_Token in_ = "")).
  - intros in_ now e. rewrite Login_result.
    unfold Validate.
    destruct (decide (0 < length _)%nat); [by intros [= <-]|].
    destruct (result (getUserByUsername (db s) (req_Username in_)))
      as [user|e'|msg]; [| |discriminate].
    + destruct (negb (ComparePassword user (req_Password in_)));
        [by intros [= <-]|].
      destruct (negb (IsEnabled user)); [by intros [= <-]|].
      destruct (genToken_ok s user now) as [tok ->]. discriminate.
    + destruct (errors_Is_UserNotFound e') eqn:He; intros [= <-]; done.
  - intros in_ now0 now e. rewrite RefreshToken_result.
    destruct (decide (req_Token in_ = "")); [by intros [= <-]|].
    destruct (ParseV4Local _ _ _) as [t|]; [|by intros [= <-]].
    destruct (Get "profile" t) as [claims|]; [|by intros [= <-]].
    destruct (result (getUserByUsername (db s) (claims_Username claims)))
      as [user|e'|msg]; [| |discriminate].
    + destruct (negb (IsEnabled user)); [by intros [= <-]|].
      destruct (genToken_ok s user now) as [tok ->]. discriminate.
    + destruct (errors_Is_UserNotFound e') eqn:He; intros [= <-]; done.
Qed.

Lemma C8_absent_principal_is_unauthenticated_witness :
  result (@Login demoLibraries demoService
            {| req_Username := "zoe"; req_Password := "guess" |} 0)
  = Err (rpcstatus_Error Unauthenticated usernamePasswordMessage)
  ∧ result (@RefreshToken demoLibraries demoService
              {| req_Token := "refresh-key/zoe" |} 0 0)
    = Err (rpcstatus_Error Unauthenticated tokenMessage).
Proof.
  pose proof (@C8_absent_principal_is_unauthenticated demoLibraries demoService)
    as (HL & HR & _).
  split.
  - apply HL; vm_compute; reflexivity.
  - eapply HR; vm_compute; reflexivity.
Defined.

(** The two refusals of [Login] once the store has returned a user: a
    password that does not match is answered with the message about
    username and password, a matching one for a user who is not enabled
    with the message about the token. *)
Lemma Login_refusal_messages `{Libraries} (s : Auth) (in_ : LoginReq)
      (now : Time) (user : User) :
  Validate in_ = None →
  result (getUserByUsername (db s) (req_Username in_)) = Ok user →
  (ComparePassword user (req_Password in_) = false →
   result (Login s in_ now)
   = Err (rpcstatus_Error Unauthenticated usernamePasswordMessage))
  ∧ (ComparePassword user (req_Password in_) = true →
     Status user ≠ Status.StatusEnabled →
     result (Login s in_ now)
     = Err (rpcstatus_Error Unauthenticated tokenMessage)).
Proof.
  intros Hval Huser. rewrite Login_result, Hval, Huser. split.
  - by intros ->.
  - intros -> Hst. by rewrite (IsEnabled_false user Hst).
Qed.

(** C2, at a disabled principal: given the right password [Login] refuses
    with the message about the token, given a wrong one with the message
    about username and password; the two messages differ. *)
Theorem C2_login_failures_tell_the_cause :
  result (@Login demoLibraries demoService
            {| req_Username := "dora"; req_Password := "dora-secret" |} 0)
  = Err (rpcstatus_Error Unauthenticated
      "Your credentials not valid. Please check your token and try again.")
  ∧ result (@Login demoLibraries demoService
              {| req_Username := "dora"; req_Password := "guess" |} 0)
    = Err (rpcstatus_Error Unauthenticated
        "Your credentials not valid. Please check your username and password and try again.")
  ∧ tokenMessage ≠ usernamePasswordMessage.
Proof.
  split; [vm_compute; reflexivity|]. split; [vm_compute; reflexivity|].
  discriminate.
Qed.

(** * Further properties of the package *)

(** ** The status codec, both ways *)

Lemma statusValues_lookup (name : string) (v : Z) :
  Status.statusValues !! name = Some v
  ↔ (name = "UNSPECIFIED" ∧ v = 0) ∨ (name = "ENABLED" ∧ v = 3)
    ∨ (name = "DISABLED" ∧ v = 1) ∨ (name = "TERMINATED" ∧ v = 2).
Proof.
  unfold Status.statusValues, Status.StatusUnSpecified, Status.StatusEnabled,
    Status.StatusDisabled, Status.StatusTerminated.
  rewrite !lookup_insert, lookup_empty.
  repeat case_decide; subst; split; intros Hx;
    try (injection Hx as <-); try discriminate; try tauto;
    try (destruct Hx as [[? ?]|[[? ?]|[[? ?]|[? ?]]]]; congruence).
Qed.

Lemma statusNames_lookup (v : Z) (name : string) :
  Status.statusNames !! v = Some name
  ↔ (name = "UNSPECIFIED" ∧ v = 0) ∨ (name = "ENABLED" ∧ v = 3)
    ∨ (name = "DISABLED" ∧ v = 1) ∨ (name = "TERMINATED" ∧ v = 2).
Proof.
  unfold Status.statusNames, Status.StatusUnSpecified, Status.StatusEnabled,
    Status.StatusDisabled, Status.StatusTerminated.
  rewrite !lookup_insert, lookup_empty.
  repeat case_decide; subst; split; intros Hx;
    try (injection Hx as <-); try discriminate; try tauto;
    try (destruct Hx as [[? ?]|[[? ?]|[[? ?]|[? ?]]]]; congruence).
Qed.

Lemma tables_inverse (name : string) (v : Z) :
  Status.statusValues !! name = Some v ↔ Status.statusNames !! v = Some name.
Proof. by rewrite statusValues_lookup, statusNames_lookup. Qed.

(** X1: the two tables of the status enumeration are inverse to each other:
    a name maps to a status in [statusValues] exactly when that status maps
    to the name in [statusNames]. *)
Theorem X1_status_tables_inverse (name : string) (v : Status.status) :
  Status.statusValues !! name = Some v ↔ Status.statusNames !! v = Some name.
Proof. apply tables_inverse. Qed.

Lemma UnmarshalJSON_quoted (cur : Status.status) (s : string) :
  Status.UnmarshalJSON cur (quoted s)
  = match Status.statusValues !! s with
    | Some v => Ok v
    | None =>
        match Atoi s with
        | Some v => Ok v
        | None => Err (ErrNew ("invalid status: " +:+ s))
        end
    end.
Proof.
  unfold Status.UnmarshalJSON.
  destruct (decide (quoted s = "null")) as [Hn|_];
    [by apply quoted_not_null in Hn|].
  by rewrite slice_quoted.
Qed.

Lemma String_known (s : Status.status) (name : string) :
  Status.statusNames !! s = Some name → Status.String s = name.
Proof. unfold Status.String, Status.status. by intros ->. Qed.

Lemma String_unknown (s : Status.status) :
  Status.statusNames !! s = None →
  Status.String s = "Status(" +:+ pretty s +:+ ")".
Proof. unfold Status.String, Status.status. by intros ->. Qed.

Lemma statusValues_not_rendering (x : string) :
  Status.statusValues !! ("Status(" +:+ x) = None.
Proof.
  destruct (Status.statusValues !! ("Status(" +:+ x)) as [v|] eqn:Hl; [|done].
  apply statusValues_lookup in Hl.
  destruct Hl as [[? ?]|[[? ?]|[[? ?]|[? ?]]]]; discriminate.
Qed.

Lemma Atoi_not_rendering (x : string) : Atoi ("Status(" +:+ x) = None.
Proof. reflexivity. Qed.

(** X2: what [MarshalJSON] writes, [UnmarshalJSON] reads back as the same
    status when the status is one of the four of the table; for any other
    status the text written, Status(n), is refused on reading with the error
    [invalid status]. *)
Theorem X2_json_round_trip (cur s : Status.status) :
  match Status.MarshalJSON s with
  | Ok b =>
      Status.UnmarshalJSON cur b
      = match Status.statusNames !! s with
        | Some _ => Ok s
        | None => Err (ErrNew ("invalid status: Status(" +:+ pretty s +:+ ")"))
        end
  | _ => False
  end.
Proof.
  unfold Status.MarshalJSON. rewrite UnmarshalJSON_quoted.
  destruct (Status.statusNames !! s) as [name|] eqn:Hn.
  - rewrite (String_known s name Hn).
    apply tables_inverse in Hn. unfold Status.status in *. by rewrite Hn.
  - rewrite (String_unknown s Hn).
    change ("Status(" +:+ pretty s +:+ ")") with ("Status(" +:+ (pretty s +:+ ")")).
    by rewrite statusValues_not_rendering, Atoi_not_rendering.
Qed.

Lemma Scan_text (cur : Status.status) (s : string) :
  Status.Scan cur (Status.SrcString s)
  = match Status.statusValues !! s with
    | Some v => Ok v
    | None => Err (ErrNew ("invalid status: " +:+ s))
    end.
Proof. reflexivity. Qed.

(** X3: what [Value] hands to the database, [Scan] reads back as the same
    status when the status is one of the four of the table; for any other
    status [Scan] refuses the text Status(n). *)
Theorem X3_value_scan_round_trip (cur s : Status.status) :
  match status_Value s with
  | Ok x =>
      Status.Scan cur x
      = match Status.statusNames !! s with
        | Some _ => Ok s
        | None => Err (ErrNew ("invalid status: Status(" +:+ pretty s +:+ ")"))
        end
  | _ => False
  end.
Proof.
  unfold status_Value. rewrite Scan_text.
  destruct (Status.statusNames !! s) as [name|] eqn:Hn.
  - rewrite (String_known s name Hn).
    apply tables_inverse in Hn. unfold Status.status in *. by rewrite Hn.
  - rewrite (String_unknown s Hn).
    change ("Status(" +:+ pretty s +:+ ")") with ("Status(" +:+ (pretty s +:+ ")")).
    by rewrite statusValues_not_rendering.
Qed.

Lemma statusValues_range (name : string) (v : Z) :
  Status.statusValues !! name = Some v → 0 ≤ v ≤ 3.
Proof.
  intros Hl. apply statusValues_lookup in Hl.
  destruct Hl as [[? ->]|[[? ->]|[[? ->]|[? ->]]]]; lia.
Qed.

Lemma Scan_range (cur : Status.status) (x : Status.src) (v : Status.status) :
  Status.Scan cur x = Ok v →
  (x = Status.SrcNil ∧ v = cur)
  ∨ (0 ≤ v ≤ 3 ∧ ∃ name, (x = Status.SrcString name ∨ x = Status.SrcBytes name)
                          ∧ Status.statusValues !! name = Some v).
Proof.
  destruct x as [|s|b|n|b|o]; simpl; try discriminate.
  - intros [= <-]. by left.
  - destruct (Status.statusValues !! s) as [v'|] eqn:Hl; [|discriminate].
    intros [= <-]. right. split; [by eapply statusValues_range|]. eauto.
  - destruct (Status.statusValues !! b) as [v'|] eqn:Hl; [|discriminate].
    intros [= <-]. right. split; [by eapply statusValues_range|]. eauto.
Qed.

(** X4: a user that [getUserByUsername] returns has one of the four statuses
    of the enumeration. *)
Theorem X4_loaded_status_in_range (p : Pool) (username : string) (u : User) :
  result (getUserByUsername p username) = Ok u → 0 ≤ Status u ≤ 3.
Proof.
  rewrite getUser_result. unfold scanUser.
  destruct (QueryRow_user p username) as [e|c].
  { by destruct (errors_Is_NoRows e). }
  destruct (Status.Scan 0 (col_status c)) as [st|e|msg] eqn:Hs; simpl;
    [|by destruct (errors_Is_NoRows e)|discriminate].
  intros [= <-]. simpl.
  apply Scan_range in Hs as [[_ ->]|[Hr _]]; [done|exact Hr].
Qed.

(** X5: [UnmarshalJSON] panics, on its slice expression, exactly on the
    inputs of fewer than two bytes. *)
Theorem X5_unmarshal_panics_iff_short (cur : Status.status) (b : string) :
  (∃ msg, Status.UnmarshalJSON cur b = Panic msg) ↔ (String.length b < 2)%nat.
Proof.
  unfold Status.UnmarshalJSON. destruct (decide (b = "null")) as [->|Hn].
  { simpl. split; [intros [? [=]]|lia]. }
  unfold slice, len.
  destruct ((0 <=? 1) && (1 <=? Z.of_nat (String.length b) - 1)
            && (Z.of_nat (String.length b) - 1 <=? Z.of_nat (String.length b)))
    eqn:Hc.
  - apply andb_true_iff in Hc as [Hc _]. apply andb_true_iff in Hc as [_ Hc].
    apply Z.leb_le in Hc. split; [|lia].
    intros [msg Hp]. exfalso. revert Hp.
    destruct (Status.statusValues !! _); [discriminate|].
    by destruct (Atoi _).
  - split; [|eauto]. intros _.
    rewrite !andb_false_iff, !Z.leb_gt in Hc. lia.
Qed.

(** Decimal rendering and [Atoi]. *)

Lemma digit_of_pretty_char (d : N) :
  (d < 10)%N → digit_of (pretty_N_char d) = Some (Z.of_N d).
Proof.
  intros Hd.
  assert (d = 0 ∨ d = 1 ∨ d = 2 ∨ d = 3 ∨ d = 4 ∨ d = 5 ∨ d = 6 ∨ d = 7
          ∨ d = 8 ∨ d = 9)%N as Hcases by lia.
  repeat (destruct Hcases as [->|Hcases]; [reflexivity|]). by subst.
Qed.

Lemma parse_digits_pretty_go (x : N) :
  ∃ k : Z, 0 ≤ k ∧ ∀ (s : string) (acc : Z),
    parse_digits acc (pretty_N_go x s) = parse_digits (acc * 10 ^ k + Z.of_N x) s.
Proof.
  induction (N.lt_wf_0 x) as [x _ IH].
  destruct (decide (x = 0%N)) as [->|Hx].
  { exists 0. split; [done|]. intros s acc. rewrite pretty_N_go_0.
    f_equal. simpl. lia. }
  destruct (IH (x `div` 10)%N) as (k & Hk & Hgo).
  { apply N.div_lt; lia. }
  exists (k + 1). split; [lia|]. intros s acc.
  rewrite pretty_N_go_step by lia. rewrite Hgo. cbn [parse_digits].
  rewrite digit_of_pretty_char by (apply N.mod_lt; lia).
  f_equal. rewrite Z.pow_add_r, Z.pow_1_r by lia.
  rewrite N2Z.inj_div, N2Z.inj_mod. change (Z.of_N 10) with 10.
  assert (Hdm : Z.of_N x = 10 * (Z.of_N x `div` 10) + Z.of_N x `mod` 10)
    by (apply Z.div_mod; lia).
  rewrite Hdm at 3. ring.
Qed.

Lemma pretty_go_head (x : N) (s : string) :
  (0 < x)%N → ∃ d r, (d < 10)%N ∧ pretty_N_go x s = String (pretty_N_char d) r.
Proof.
  revert s. induction (N.lt_wf_0 x) as [x _ IH]. intros s Hx.
  rewrite pretty_N_go_step by done.
  destruct (decide (x `div` 10 = 0)%N) as [->|Hd].
  - rewrite pretty_N_go_0. exists (x `mod` 10)%N, s. split; [|done].
    apply N.mod_lt. lia.
  - apply IH; [apply N.div_lt; lia|by apply N.neq_0_lt_0].
Qed.

Lemma pretty_char_not_sign (d : N) :
  (d < 10)%N →
  Ascii.eqb (pretty_N_char d) "-" = false ∧ Ascii.eqb (pretty_N_char d) "+" = false.
Proof.
  intros Hd.
  assert (d = 0 ∨ d = 1 ∨ d = 2 ∨ d = 3 ∨ d = 4 ∨ d = 5 ∨ d = 6 ∨ d = 7
          ∨ d = 8 ∨ d = 9)%N as Hcases by lia.
  repeat (destruct Hcases as [->|Hcases]; [by split|]). by subst.
Qed.

Lemma Atoi_unsigned (c : ascii) (r : string) :
  Ascii.eqb c "-" = false → Ascii.eqb c "+" = false →
  Atoi (String c r)
  = match parse_digits 0 (String c r) with
    | Some n => if (minInt <=? n) && (n <=? maxInt) then Some n else None
    | None => None
    end.
Proof. intros Hm Hp. unfold Atoi. by rewrite Hm, Hp. Qed.

Lemma Atoi_minus (c : ascii) (r : string) :
  Atoi (String "-" (String c r))
  = match parse_digits 0 (String c r) with
    | Some n => if (minInt <=? - n) && (- n <=? maxInt) then Some (- n) else None
    | None => None
    end.
Proof. reflexivity. Qed.

Lemma Atoi_pretty_pos (p : positive) :
  Z.pos p ≤ maxInt → Atoi (pretty (Z.pos p)) = Some (Z.pos p).
Proof.
  intros Hmax. unfold pretty, pretty_Z, pretty, pretty_positive, pretty, pretty_N.
  destruct (decide (N.pos p = 0%N)) as [|_]; [done|].
  destruct (pretty_go_head (N.pos p) "" ltac:(lia)) as (d & r & Hd & Hhead).
  destruct (parse_digits_pretty_go (N.pos p)) as (k & _ & Hgo).
  specialize (Hgo "" 0). revert Hgo. rewrite Hhead. intros Hgo.
  destruct (pretty_char_not_sign d Hd) as [Hm Hp].
  rewrite (Atoi_unsigned _ _ Hm Hp), Hgo. cbn [parse_digits].
  replace (0 * 10 ^ k + Z.of_N (N.pos p)) with (Z.pos p) by lia.
  assert (Hr : (minInt <=? Z.pos p) && (Z.pos p <=? maxInt) = true).
  { rewrite andb_true_iff, !Z.leb_le. unfold minInt. lia. }
  by rewrite Hr.
Qed.

Lemma Atoi_pretty_neg (p : positive) :
  minInt ≤ Z.neg p → Atoi (pretty (Z.neg p)) = Some (Z.neg p).
Proof.
  intros Hmin. unfold pretty, pretty_Z, pretty, pretty_positive, pretty, pretty_N.
  destruct (decide (N.pos p = 0%N)) as [|_]; [done|].
  destruct (pretty_go_head (N.pos p) "" ltac:(lia)) as (d & r & Hd & Hhead).
  destruct (parse_digits_pretty_go (N.pos p)) as (k & _ & Hgo).
  specialize (Hgo "" 0). revert Hgo. rewrite Hhead. intros Hgo.
  change ("-" +:+ String (pretty_N_char d) r)
    with (String "-" (String (pretty_N_char d) r)).
  rewrite Atoi_minus, Hgo. cbn [parse_digits].
  replace (0 * 10 ^ k + Z.of_N (N.pos p)) with (Z.pos p) by lia.
  change (- Z.pos p) with (Z.neg p).
  assert (Hr : (minInt <=? Z.neg p) && (Z.neg p <=? maxInt) = true).
  { rewrite andb_true_iff, !Z.leb_le. unfold maxInt. lia. }
  by rewrite Hr.
Qed.

Lemma Atoi_pretty (n : Z) :
  minInt ≤ n ≤ maxInt → Atoi (pretty n) = Some n.
Proof.
  intros [Hmin Hmax]. destruct n as [|p|p].
  - reflexivity.
  - by apply Atoi_pretty_pos.
  - by apply Atoi_pretty_neg.
Qed.

Lemma Atoi_not_a_name (s : string) (v : Z) :
  Atoi s = Some v → Status.statusValues !! s = None.
Proof.
  intros Ha. destruct (Status.statusValues !! s) as [w|] eqn:Hl; [|done].
  apply statusValues_lookup in Hl.
  destruct Hl as [[-> _]|[[-> _]|[[-> _]|[-> _]]]]; discriminate Ha.
Qed.

(** X6: [UnmarshalJSON] accepts the decimal text of every integer of the
    range of [int] as a JSON string and returns the status of that number,
    inside the enumeration or not. *)
Theorem X6_every_int_decodes (cur : Status.status) (n : Z) :
  minInt ≤ n ≤ maxInt →
  Status.UnmarshalJSON cur (quoted (pretty n)) = Ok n.
Proof.
  intros Hn. rewrite UnmarshalJSON_quoted. unfold Status.status.
  pose proof (Atoi_pretty n Hn) as Ha.
  by rewrite (Atoi_not_a_name _ _ Ha), Ha.
Qed.

Lemma append_inj_last (s t : string) (c : ascii) :
  s +:+ String c "" = t +:+ String c "" → s = t.
Proof.
  revert t. induction s as [|a s IH]; intros [|b t]; simpl; intros Heq.
  - done.
  - injection Heq as _ Heq. by destruct t.
  - injection Heq as _ Heq. by destruct s.
  - injection Heq as -> Heq. f_equal. by apply IH.
Qed.

(** X7: [String] gives different statuses different texts. *)
Theorem X7_String_injective (a b : Status.status) :
  Status.String a = Status.String b → a = b.
Proof.
  destruct (Status.statusNames !! a) as [na|] eqn:Ha;
    destruct (Status.statusNames !! b) as [nb|] eqn:Hb.
  - rewrite (String_known a na Ha), (String_known b nb Hb). intros ->.
    apply statusNames_lookup in Ha, Hb.
    destruct Ha as [[? ?]|[[? ?]|[[? ?]|[? ?]]]];
      destruct Hb as [[? ?]|[[? ?]|[[? ?]|[? ?]]]]; congruence.
  - rewrite (String_known a na Ha), (String_unknown b Hb). intros ->.
    apply statusNames_lookup in Ha.
    destruct Ha as [[? ?]|[[? ?]|[[? ?]|[? ?]]]]; discriminate.
  - rewrite (String_unknown a Ha), (String_known b nb Hb). intros <-.
    apply statusNames_lookup in Hb.
    destruct Hb as [[? ?]|[[? ?]|[[? ?]|[? ?]]]]; discriminate.
  - rewrite (String_unknown a Ha), (String_unknown b Hb). intros Heq.
    simpl in Heq. injection Heq as Heq.
    apply append_inj_last in Heq. by apply (inj pretty) in Heq.
Qed.

(** ** Context *)

(** X8: [ClaimsFromContext] returns the pointer that [ContextWithClaims]
    stored last, is not disturbed by values stored under any other key, and
    takes a value of another type under its own key for no claims at all. *)
Theorem X8_claims_context_round_trip (ctx : Context) :
  (∀ claims : ClaimsPtr, ClaimsFromContext (ContextWithClaims ctx claims) = claims)
  ∧ (∀ (k : key) (v : any),
       k ≠ claimsKey → ClaimsFromContext (WithValue ctx k v) = ClaimsFromContext ctx)
  ∧ (∀ shown : string,
       ClaimsFromContext (WithValue ctx claimsKey (AnyOther shown)) = Some emptyClaims).
Proof.
  split; [|split].
  - intros claims. unfold ClaimsFromContext, ContextWithClaims. cbn [Value].
    by destruct (decide (claimsKey = claimsKey)).
  - intros k v Hk. unfold ClaimsFromContext. cbn [Value].
    by destruct (decide (k = claimsKey)).
  - intros shown. unfold ClaimsFromContext. cbn [Value].
    by destruct (decide (claimsKey = claimsKey)).
Qed.

Lemma ClaimsFromContext_nil (ctx : Context) :
  ClaimsFromContext ctx = None ↔ Value ctx claimsKey = Some (AnyClaims None).
Proof.
  unfold ClaimsFromContext.
  destruct (Value ctx claimsKey) as [[[c|]|shown]|]; split; congruence.
Qed.

(** X9: when the claims stored last are a nil pointer, [ClaimsFromContext]
    returns nil, and [CanI] (asked for some permission), [ListMyRoles] and
    [Profile] panic on it before any query to the store. *)
Theorem X9_nil_claims_panic (s : Auth) (ctx : Context) :
  Value ctx claimsKey = Some (AnyClaims None) →
  ClaimsFromContext ctx = None
  ∧ (∀ wanted, wanted ≠ [] →
       run (CanI s ctx wanted)
       = (Panic "runtime error: invalid memory address or nil pointer dereference", []))
  ∧ run (ListMyRoles s ctx)
    = (Panic "runtime error: invalid memory address or nil pointer dereference", [])
  ∧ run (Profile s ctx)
    = (Panic "runtime error: invalid memory address or nil pointer dereference", []).
Proof.
  intros Hv. apply ClaimsFromContext_nil in Hv as Hnil.
  split; [done|]. split; [|split].
  - intros wanted Hne. unfold run, CanI.
    destruct (decide (length wanted = 0%nat)) as [Hl|_].
    { destruct wanted; [done|discriminate]. }
    by rewrite Hnil.
  - unfold run, ListMyRoles. by rewrite Hnil.
  - unfold run, Profile. by rewrite Hnil.
Qed.

(** ** Missing permissions *)

Lemma elem_of_missing (p : string) (wanted having : list string) :
  p ∈ checkMissingPermissions wanted having ↔ p ∈ wanted ∧ p ∉ having.
Proof.
  rewrite checkMissingPermissions_filter, list_elem_of_filter. tauto.
Qed.

Lemma missing_nil_iff (wanted having : list string) :
  checkMissingPermissions wanted having = [] ↔ ∀ p, p ∈ wanted → p ∈ having.
Proof.
  split.
  - intros Hnil p Hp. destruct (decide (p ∈ having)) as [|Hout]; [done|].
    assert (p ∈ checkMissingPermissions wanted having) as Hin
      by by apply elem_of_missing.
    rewrite Hnil in Hin. by apply elem_of_nil in Hin.
  - intros Hall.
    destruct (checkMissingPermissions wanted having) as [|p l] eqn:Hm; [done|].
    assert (p ∈ checkMissingPermissions wanted having) as Hin
      by (rewrite Hm; by left).
    apply elem_of_missing in Hin as [Hw Hh]. by destruct Hh; apply Hall.
Qed.

(** X10: [checkMissingPermissions] returns the empty list exactly when every
    wanted permission occurs in the list of those had. *)
Theorem X10_nothing_missing_iff_covered (wanted having : list string) :
  checkMissingPermissions wanted having = [] ↔ ∀ p, p ∈ wanted → p ∈ having.
Proof. apply missing_nil_iff. Qed.

Lemma filter_ext_elem (P Q : string → Prop) `{∀ x, Decision (P x)}
      `{∀ x, Decision (Q x)} (l : list string) :
  (∀ x, x ∈ l → (P x ↔ Q x)) → filter P l = filter Q l.
Proof.
  induction l as [|x l IH]; intros Hext; [done|].
  assert (P x ↔ Q x) as Hx by (apply Hext; by left).
  assert (filter P l = filter Q l) as Hl
    by (apply IH; intros y Hy; apply Hext; by right).
  destruct (decide (P x)) as [HP|HP].
  - rewrite !filter_cons_True by tauto. by rewrite Hl.
  - rewrite !filter_cons_False by tauto. done.
Qed.

(** X11: the missing list depends on the permissions had only through which
    of the wanted ones occur among them: order and repetitions in that list
    do not count. *)
Theorem X11_missing_depends_on_set_of_having (wanted h1 h2 : list string) :
  (∀ p, p ∈ wanted → (p ∈ h1 ↔ p ∈ h2)) →
  checkMissingPermissions wanted h1 = checkMissingPermissions wanted h2.
Proof.
  intros Hsame. rewrite !checkMissingPermissions_filter.
  apply filter_ext_elem. intros p Hp. specialize (Hsame p Hp). tauto.
Qed.

(** X12: having more never adds to what is missing: the missing list under a
    larger list of permissions is a sublist of the one under a smaller list,
    which is a sublist of the wanted list. *)
Theorem X12_missing_shrinks_as_having_grows (wanted h1 h2 : list string) :
  (∀ p, p ∈ h1 → p ∈ h2) →
  checkMissingPermissions wanted h2 `sublist_of` checkMissingPermissions wanted h1
  ∧ checkMissingPermissions wanted h1 `sublist_of` wanted.
Proof.
  intros Hsub. rewrite !checkMissingPermissions_filter. split.
  - induction wanted as [|p wanted IH]; [done|].
    destruct (decide (p ∈ h2)) as [Hin2|Hout2].
    + rewrite (filter_cons_False (λ q, q ∉ h2) p wanted)
        by (intros Hn; by apply Hn).
      destruct (decide (p ∈ h1)) as [Hin1|Hout1].
      * by rewrite (filter_cons_False (λ q, q ∉ h1) p wanted)
          by (intros Hn; by apply Hn).
      * rewrite (filter_cons_True (λ q, q ∉ h1) p wanted) by done.
        by apply sublist_cons.
    + assert (p ∉ h1) as Hout1 by (intros Hin1; by apply Hout2, Hsub).
      rewrite (filter_cons_True (λ q, q ∉ h2) p wanted) by done.
      rewrite (filter_cons_True (λ q, q ∉ h1) p wanted) by done.
      by apply sublist_skip.
  - apply sublist_filter.
Qed.

(** X13: the missing list of two wanted lists put together is the two
    missing lists put together, and asking again for what was missing gives
    the same list. *)
Theorem X13_missing_app_and_idempotent (w1 w2 having : list string) :
  checkMissingPermissions (w1 ++ w2) having
  = checkMissingPermissions w1 having ++ checkMissingPermissions w2 having
  ∧ checkMissingPermissions (checkMissingPermissions w1 having) having
    = checkMissingPermissions w1 having.
Proof.
  rewrite !checkMissingPermissions_filter. split.
  - apply filter_app.
  - induction w1 as [|p w IH]; [done|].
    destruct (decide (p ∉ having)) as [Hout|Hin].
    + rewrite (filter_cons_True (λ q, q ∉ having) p w) by done.
      rewrite (filter_cons_True (λ q, q ∉ having) p _) by done.
      by rewrite IH.
    + by rewrite (filter_cons_False (λ q, q ∉ having) p w) by done.
Qed.

(** X14: [roleToPermissions] goes through appending of role lists, and
    returns as many entries as the roles hold together: nothing is dropped
    or merged. *)
Theorem X14_roleToPermissions_app_length (rs1 rs2 : list Role) :
  roleToPermissions (rs1 ++ rs2) = roleToPermissions rs1 ++ roleToPermissions rs2
  ∧ length (roleToPermissions rs1)
    = sum_list (length ∘ role_Permissions <$> rs1).
Proof.
  split.
  - unfold roleToPermissions. rewrite foldl_app.
    by rewrite (roleToPermissions_acc rs2 (foldl _ [] rs1)),
      (roleToPermissions_acc rs2 []).
  - induction rs1 as [|r rs IH]; [done|].
    by rewrite roleToPermissions_cons, length_app, IH.
Qed.

(** ** The role listing *)

Lemma scanRoles_inr (rows : list RoleScan) (acc rs : list Role) :
  scanRoles rows acc = inr rs
  ↔ ∃ scanned, rows = RoleScanned <$> scanned ∧ rs = acc ++ scanned.
Proof.
  revert acc. induction rows as [|[e|r] rows IH]; intros acc; cbn [scanRoles].
  - split.
    + intros [= <-]. exists []. by rewrite app_nil_r.
    + intros (scanned & Hrows & ->). destruct scanned; [|discriminate].
      by rewrite app_nil_r.
  - split; [discriminate|]. intros ([|r scanned] & Hrows & _); discriminate.
  - rewrite IH. split.
    + intros (scanned & -> & ->). exists (r :: scanned).
      split; [done|]. by rewrite <- app_assoc.
    + intros ([|r' scanned] & Hrows & ->); [discriminate|].
      injection Hrows as -> ->. exists scanned.
      split; [done|]. by rewrite <- app_assoc.
Qed.

Lemma scanRoles_first_failure (good : list Role) (e : error)
      (rest : list RoleScan) (acc : list Role) :
  scanRoles ((RoleScanned <$> good) ++ RoleScanFail e :: rest) acc
  = inl (ErrWrap "failed to scan row: " e).
Proof.
  revert acc. induction good as [|r good IH]; intros acc; [done|]. apply IH.
Qed.

Lemma listRoles_result (p : Pool) (username : string) :
  result (listRolesByUsername p username)
  = match Query_roles p username with
    | QueryFail e => Err (ErrWrap "failed to execute query: " e)
    | QueryRows rows rowsErr =>
        match scanRoles rows [] with
        | inl e => Err e
        | inr rs =>
            match rowsErr with
            | Some e => Err (ErrWrap "failed to iterate rows: " e)
            | None => Ok rs
            end
        end
    end.
Proof.
  unfold result, run, listRolesByUsername, mbind, M_bind, issue. simpl.
  destruct (Query_roles p username) as [e|rows rowsErr]; [done|].
  destruct (scanRoles rows []); [done|]. by destruct rowsErr.
Qed.

(** X15: when the role query runs, [listRolesByUsername] returns a list
    exactly when every row scanned and the iteration ended without error,
    and the list is then that of all rows in order; with an iteration error
    it returns an error, whatever rows were read. *)
Theorem X15_listRoles_all_or_nothing (p : Pool) (username : string)
    (rows : list RoleScan) (rowsErr : option error)
    (Hreply : Query_roles p username = QueryRows rows rowsErr) :
  (∀ rs, result (listRolesByUsername p username) = Ok rs
         ↔ rows = RoleScanned <$> rs ∧ rowsErr = None)
  ∧ (∀ e, rowsErr = Some e →
          ∃ e', result (listRolesByUsername p username) = Err e').
Proof.
  rewrite listRoles_result, Hreply. split.
  - intros rs. split.
    + destruct (scanRoles rows []) as [e|rs'] eqn:Hs; [discriminate|].
      destruct rowsErr; [discriminate|]. intros [= <-].
      apply scanRoles_inr in Hs as (scanned & -> & ->). done.
    + intros [-> ->].
      assert (scanRoles (RoleScanned <$> rs) [] = inr rs) as ->
        by (apply scanRoles_inr; eauto).
      done.
  - intros e ->. destruct (scanRoles rows []); eauto.
Qed.

(** X16: the first row of the role query that does not scan ends
    [listRolesByUsername] with the error [failed to scan row] around the
    cause, whatever follows that row. *)
Theorem X16_listRoles_first_scan_failure (p : Pool) (username : string)
    (good : list Role) (e : error) (rest : list RoleScan)
    (rowsErr : option error)
    (Hreply : Query_roles p username
              = QueryRows ((RoleScanned <$> good) ++ RoleScanFail e :: rest)
                          rowsErr) :
  result (listRolesByUsername p username)
  = Err (ErrWrap "failed to scan row: " e).
Proof. by rewrite listRoles_result, Hreply, scanRoles_first_failure. Qed.

(** ** The permission check, end to end *)

Lemma CanI_result (s : Auth) (ctx : Context) (claims : Claims)
      (wanted : list string) :
  wanted ≠ [] →
  ClaimsFromContext ctx = Some claims →
  result (CanI s ctx wanted)
  = match result (listRolesByUsername (db s) (claims_Username claims)) with
    | Ok roles =>
        match checkMissingPermissions wanted (roleToPermissions roles) with
        | [] => Ok tt
        | missed =>
            Err (rpcstatus_Error PermissionDenied (permissionDeniedMessage missed))
        end
    | Err e => Err e
    | Panic msg => Panic msg
    end.
Proof.
  intros Hne Hctx. unfold result. rewrite (CanI_run s ctx claims wanted Hne Hctx).
  destruct (run (listRolesByUsername (db s) (claims_Username claims)))
    as [[roles|e|msg] log]; [|done|done].
  cbn [fst].
  by destruct (checkMissingPermissions wanted (roleToPermissions roles)).
Qed.

Lemma listRoles_tablePool (users : string → RowReply) (t : Tables)
      (username : string) :
  result (listRolesByUsername (tablePool users t) username)
  = Ok (rolesQuery t username).
Proof.
  rewrite listRoles_result. cbn [Query_roles tablePool].
  assert (scanRoles (RoleScanned <$> rolesQuery t username) []
          = inr (rolesQuery t username)) as ->
    by (apply scanRoles_inr; eauto).
  done.
Qed.

(** X17: over a store that answers the role query from its tables, [CanI]
    grants a non-empty request exactly when each permission asked for is
    granted to a role that is assigned to the username of the claims. *)
Theorem X17_CanI_decision_over_tables
    (users : string → RowReply) (t : Tables) (s : Auth) (ctx : Context)
    (claims : Claims) (wanted : list string)
    (Hdb : db s = tablePool users t)
    (Hctx : ClaimsFromContext ctx = Some claims)
    (Hne : wanted ≠ []) :
  result (CanI s ctx wanted) = Ok tt
  ↔ ∀ p, p ∈ wanted →
      ∃ id name display,
        (claims_Username claims, name) ∈ user_has_role t
        ∧ (id, name, display) ∈ role t
        ∧ (name, p) ∈ role_has_permission t.
Proof.
  rewrite (CanI_result s ctx claims wanted Hne Hctx), Hdb, listRoles_tablePool.
  assert (checkMissingPermissions wanted
            (roleToPermissions (rolesQuery t (claims_Username claims))) = []
          ↔ ∀ p, p ∈ wanted →
              ∃ id name display,
                (claims_Username claims, name) ∈ user_has_role t
                ∧ (id, name, display) ∈ role t
                ∧ (name, p) ∈ role_has_permission t) as Hiff.
  { rewrite missing_nil_iff. split; intros Hall p Hp.
    - apply elem_of_resolved, elem_of_havingSet. by apply Hall.
    - apply elem_of_havingSet, elem_of_resolved. by apply Hall. }
  rewrite <- Hiff.
  destruct (checkMissingPermissions wanted _); split; done.
Qed.

(** X18: [CanI], asked for some permission under claims that are not nil,
    sends the store one query, for the roles of the username of the claims;
    it returns nil, or PermissionDenied with a message that names the wanted
    permissions no role holds, in the order asked, or the error of the role
    listing. *)
Theorem X18_CanI_outcomes (s : Auth) (ctx : Context) (claims : Claims)
    (wanted : list string)
    (Hne : wanted ≠ [])
    (Hctx : ClaimsFromContext ctx = Some claims) :
  queries (CanI s ctx wanted) = [QueryRoles (claims_Username claims)]
  ∧ (result (CanI s ctx wanted) = Ok tt
     ∨ (∃ roles missed,
          result (listRolesByUsername (db s) (claims_Username claims)) = Ok roles
          ∧ missed = filter (λ p, p ∉ roleToPermissions roles) wanted
          ∧ missed ≠ []
          ∧ result (CanI s ctx wanted)
            = Err (rpcstatus_Error PermissionDenied
                     (permissionDeniedMessage missed)))
     ∨ (∃ prefix cause,
          result (listRolesByUsername (db s) (claims_Username claims))
          = Err (ErrWrap prefix cause)
          ∧ result (CanI s ctx wanted) = Err (ErrWrap prefix cause))).
Proof.
  split.
  - unfold queries. rewrite (CanI_run s ctx claims wanted Hne Hctx).
    pose proof (listRoles_queries (db s) (claims_Username claims)) as Hq.
    destruct (run (listRolesByUsername (db s) (claims_Username claims)))
      as [[roles|e|msg] log]; simpl in Hq; subst log; [|done|done].
    by destruct (checkMissingPermissions wanted (roleToPermissions roles)).
  - rewrite (CanI_result s ctx claims wanted Hne Hctx).
    pose proof (listRoles_error (db s) (claims_Username claims)) as He.
    pose proof (listRoles_no_panic (db s) (claims_Username claims)) as Hp.
    fold (result (listRolesByUsername (db s) (claims_Username claims))) in He, Hp.
    destruct (result (listRolesByUsername (db s) (claims_Username claims)))
      as [roles|e|msg].
    + destruct (checkMissingPermissions wanted (roleToPermissions roles))
        as [|m missed] eqn:Hm; [by left|].
      right; left. exists roles, (m :: missed).
      split; [done|]. rewrite <- Hm, checkMissingPermissions_filter.
      split; [done|]. split; [|done].
      rewrite <- checkMissingPermissions_filter, Hm. done.
    + destruct (He e eq_refl) as (prefix & cause & ->).
      right; right. eauto.
    + by destruct (Hp msg).
Qed.

(** X19: a request that [CanI] grants stays granted when the store lists
    more roles for the same username. *)
Theorem X19_CanI_more_roles_keep_access (s s' : Auth) (ctx : Context)
    (claims : Claims) (wanted : list string) (roles roles' : list Role)
    (Hne : wanted ≠ [])
    (Hctx : ClaimsFromContext ctx = Some claims)
    (Hroles : result (listRolesByUsername (db s) (claims_Username claims))
              = Ok roles)
    (Hroles' : result (listRolesByUsername (db s') (claims_Username claims))
               = Ok roles')
    (Hmore : ∀ r, r ∈ roles → r ∈ roles') :
  result (CanI s ctx wanted) = Ok tt → result (CanI s' ctx wanted) = Ok tt.
Proof.
  rewrite !(CanI_result _ ctx claims wanted Hne Hctx), Hroles, Hroles'.
  destruct (checkMissingPermissions wanted (roleToPermissions roles))
    eqn:Hm; [|discriminate].
  intros _.
  assert (checkMissingPermissions wanted (roleToPermissions roles') = []) as ->;
    [|done].
  apply missing_nil_iff. intros p Hp.
  apply (proj1 (missing_nil_iff _ _) Hm) in Hp.
  apply elem_of_roleToPermissions in Hp as (r & Hr & Hp).
  apply elem_of_roleToPermissions. eauto.
Qed.

(** ** Login, refresh, minting and profile *)

Lemma Validate_None (r : LoginReq) :
  Validate r = None ↔ req_Username r ≠ "" ∧ req_Password r ≠ "".
Proof.
  unfold Validate.
  destruct (decide (req_Username r = "")), (decide (req_Password r = ""));
    simpl; split; try discriminate; try tauto; intros [? ?]; done.
Qed.

(** X20: [Validate] accepts a login request exactly when neither the
    username nor the password is empty; otherwise its error has code
    [InvalidArgument] and one violation per empty field, username first. *)
Theorem X20_Validate (r : LoginReq) :
  (Validate r = None ↔ req_Username r ≠ "" ∧ req_Password r ≠ "")
  ∧ ∀ e, Validate r = Some e →
      ∃ msg violations,
        e = ErrStatus InvalidArgument msg violations
        ∧ Field <$> violations
          = (if decide (req_Username r = "") then ["username"] else [])
            ++ (if decide (req_Password r = "") then ["password"] else []).
Proof.
  split; [apply Validate_None|]. intros e. unfold Validate.
  destruct (decide (req_Username r = "")), (decide (req_Password r = ""));
    simpl; intros [= <-]; eauto.
Qed.

Lemma getUser_queries (p : Pool) (username : string) :
  queries (getUserByUsername p username) = [QueryUser username].
Proof.
  unfold queries, run, getUserByUsername, mbind, M_bind, issue. simpl.
  destruct (scanUser (QueryRow_user p username)) as [u|e|msg]; [done| |done].
  by destruct (errors_Is_NoRows e).
Qed.

Section ServiceExtras.
Context `{Libraries}.

Lemma genToken_plain (s : Auth) (u : User) (now : Time) :
  genToken s u now
  = Ok {| Access := V4Encrypt (accessPlain u now) (aKey s);
          Refresh := V4Encrypt (refreshPlain u now) (rKey s) |}.
Proof. reflexivity. Qed.

Lemma Login_queries (s : Auth) (in_ : LoginReq) (now : Time) :
  queries (Login s in_ now)
  = match Validate in_ with
    | Some _ => []
    | None => [QueryUser (req_Username in_)]
    end.
Proof.
  unfold queries, run, Login. destruct (Validate in_); [done|].
  pose proof (getUser_queries (db s) (req_Username in_)) as Hq.
  unfold queries, run in Hq. unfold mbind, M_bind, attempt.
  destruct (getUserByUsername (db s) (req_Username in_) [])
    as [[user|e|msg] log]; simpl in Hq; subst log; simpl;
    [|by destruct (errors_Is_UserNotFound e)|done].
  destruct (negb (ComparePassword user (req_Password in_))); [done|].
  by destruct (negb (IsEnabled user)).
Qed.

(** X21: [Login] queries the store for the user of a well-formed request and
    for nothing else, and answers a request with an empty username or
    password with [InvalidArgument] without any query. *)
Theorem X21_Login_store_discipline (s : Auth) (in_ : LoginReq) (now : Time) :
  (req_Username in_ ≠ "" ∧ req_Password in_ ≠ "" →
   queries (Login s in_ now) = [QueryUser (req_Username in_)])
  ∧ (req_Username in_ = "" ∨ req_Password in_ = "" →
     ∃ msg violations,
       run (Login s in_ now)
       = (Err (ErrStatus InvalidArgument msg violations), [])).
Proof.
  split.
  - intros Hv. rewrite Login_queries. apply Validate_None in Hv. by rewrite Hv.
  - intros Hbad. unfold run, Login.
    destruct (Validate in_) as [e|] eqn:Hval.
    + revert Hval. unfold Validate.
      destruct (decide (req_Username in_ = "")), (decide (req_Password in_ = ""));
        simpl; intros [= <-]; eauto.
    + apply Validate_None in Hval as [Hu Hp]. by destruct Hbad.
Qed.

(** X22: [Login] returns a token pair exactly when username and password are
    not empty, the store returns a user for the username, the password
    matches the stored hash and the status is enabled; the pair is then the
    two encryptions of [genToken] for that user. *)
Theorem X22_Login_succeeds_iff (s : Auth) (in_ : LoginReq) (now : Time)
    (tok : Token) :
  result (Login s in_ now) = Ok tok
  ↔ req_Username in_ ≠ "" ∧ req_Password in_ ≠ ""
    ∧ ∃ user,
        result (getUserByUsername (db s) (req_Username in_)) = Ok user
        ∧ ComparePassword user (req_Password in_) = true
        ∧ Status user = Status.StatusEnabled
        ∧ tok = {| Access := V4Encrypt (accessPlain user now) (aKey s);
                   Refresh := V4Encrypt (refreshPlain user now) (rKey s) |}.
Proof.
  rewrite Login_result. split.
  - destruct (Validate in_) eqn:Hval; [discriminate|].
    apply Validate_None in Hval as [Hu Hp].
    destruct (result (getUserByUsername (db s) (req_Username in_)))
      as [user|e|m]; [| by destruct (errors_Is_UserNotFound e) | discriminate].
    destruct (ComparePassword user (req_Password in_)) eqn:Hpw; [|discriminate].
    destruct (IsEnabled user) eqn:Hen; [|discriminate]. cbn [negb].
    rewrite genToken_plain. intros [= <-].
    split; [done|]. split; [done|]. exists user.
    split; [done|]. split; [done|]. split; [by apply IsEnabled_true|done].
  - intros (Hu & Hp & user & Huser & Hpw & Hst & ->).
    assert (Validate in_ = None) as -> by by apply Validate_None.
    rewrite Huser, Hpw. cbn [negb].
    assert (IsEnabled user = true) as ->
      by (unfold IsEnabled; by apply bool_decide_eq_true).
    cbn [negb]. by rewrite genToken_plain.
Qed.

Lemma RefreshToken_queries (s : Auth) (in_ : NewTokenReq) (now0 now : Time) :
  queries (RefreshToken s in_ now0 now)
  = if decide (req_Token in_ = "") then []
    else
      match ParseV4Local [NotExpired; ValidAt now0] (rKey s) (req_Token in_) with
      | None => []
      | Some t =>
          match Get "profile" t with
          | None => []
          | Some claims => [QueryUser (claims_Username claims)]
          end
      end.
Proof.
  unfold queries, run, RefreshToken.
  destruct (decide (req_Token in_ = "")); [done|].
  destruct (ParseV4Local _ _ _) as [t|]; [|done].
  destruct (Get "profile" t) as [claims|]; [|done].
  pose proof (getUser_queries (db s) (claims_Username claims)) as Hq.
  unfold queries, run in Hq. unfold mbind, M_bind, attempt.
  destruct (getUserByUsername (db s) (claims_Username claims) [])
    as [[user|e|msg] log]; simpl in Hq; subst log; simpl;
    [|by destruct (errors_Is_UserNotFound e)|done].
  by destruct (negb (IsEnabled user)).
Qed.

(** X23: [RefreshToken] answers an empty token, a token that does not parse
    under the refresh key, and a token without decodable claims with the
    same Unauthenticated error, and has not queried the store. *)
Theorem X23_Refresh_rejects_before_store (s : Auth) (in_ : NewTokenReq)
    (now0 now : Time) :
  (req_Token in_ = ""
   ∨ ParseV4Local [NotExpired; ValidAt now0] (rKey s) (req_Token in_) = None
   ∨ ∃ t, ParseV4Local [NotExpired; ValidAt now0] (rKey s) (req_Token in_) = Some t
          ∧ Get "profile" t = None) →
  run (RefreshToken s in_ now0 now)
  = (Err (rpcstatus_Error Unauthenticated tokenMessage), []).
Proof.
  intros Hbad. unfold run, RefreshToken.
  destruct (decide (req_Token in_ = "")) as [|Hne]; [done|].
  destruct Hbad as [He|[Hp|(t & Hp & Hg)]]; [done|by rewrite Hp|].
  by rewrite Hp, Hg.
Qed.

(** X24: [RefreshToken] returns a token pair exactly when the token is not
    empty, parses under the refresh key, carries claims, and the store
    returns an enabled user for the username of the claims; the pair is then
    minted for that user at the new time. *)
Theorem X24_Refresh_succeeds_iff (s : Auth) (in_ : NewTokenReq)
    (now0 now : Time) (tok : Token) :
  result (RefreshToken s in_ now0 now) = Ok tok
  ↔ req_Token in_ ≠ ""
    ∧ ∃ t claims user,
        ParseV4Local [NotExpired; ValidAt now0] (rKey s) (req_Token in_) = Some t
        ∧ Get "profile" t = Some claims
        ∧ result (getUserByUsername (db s) (claims_Username claims)) = Ok user
        ∧ Status user = Status.StatusEnabled
        ∧ tok = {| Access := V4Encrypt (accessPlain user now) (aKey s);
                   Refresh := V4Encrypt (refreshPlain user now) (rKey s) |}.
Proof.
  rewrite RefreshToken_result. split.
  - destruct (decide (req_Token in_ = "")) as [|Hne]; [discriminate|].
    destruct (ParseV4Local _ _ _) as [t|] eqn:Hparse; [|discriminate].
    destruct (Get "profile" t) as [claims|] eqn:Hget; [|discriminate].
    destruct (result (getUserByUsername (db s) (claims_Username claims)))
      as [user|e|m] eqn:Huser;
      [| by destruct (errors_Is_UserNotFound e) | discriminate].
    destruct (IsEnabled user) eqn:Hen; [|discriminate]. cbn [negb].
    rewrite genToken_plain. intros [= <-]. split; [done|].
    exists t, claims, user. split; [done|]. split; [done|]. split; [done|].
    split; [by apply IsEnabled_true|done].
  - intros (Hne & t & claims & user & Hparse & Hget & Huser & Hst & ->).
    destruct (decide (req_Token in_ = "")) as [|_]; [done|].
    rewrite Hparse, Hget, Huser.
    assert (IsEnabled user = true) as ->
      by (unfold IsEnabled; by apply bool_decide_eq_true).
    cbn [negb]. by rewrite genToken_plain.
Qed.

Lemma Get_profile_refreshPlain (u : User) (now : Time) :
  Get "profile" (refreshPlain u now) = Some (toClaims u)
  ∧ Get "profile" (accessPlain u now) = Some (toClaims u).
Proof. split; reflexivity. Qed.

(** X25: the refresh token of a successful login, once the parser opens it
    to the token that was encrypted, buys a fresh pair for the same user at
    the new time, without the password, as long as the store returns the
    same row. *)
Theorem X25_login_then_refresh (s : Auth) (in_ : LoginReq) (now now0 now' : Time)
    (tok : Token) (u : User)
    (Hlogin : result (Login s in_ now) = Ok tok)
    (Huser : result (getUserByUsername (db s) (req_Username in_)) = Ok u)
    (Hname : Username u = req_Username in_)
    (Hnonempty : Refresh tok ≠ "")
    (Hopen : ParseV4Local [NotExpired; ValidAt now0] (rKey s) (Refresh tok)
             = Some (refreshPlain u now)) :
  result (RefreshToken s {| req_Token := Refresh tok |} now0 now')
  = Ok {| Access := V4Encrypt (accessPlain u now') (aKey s);
          Refresh := V4Encrypt (refreshPlain u now') (rKey s) |}.
Proof.
  assert (Status u = Status.StatusEnabled) as Hst.
  { revert Hlogin. rewrite Login_result.
    destruct (Validate in_); [discriminate|]. rewrite Huser.
    destruct (negb (ComparePassword u (req_Password in_))); [discriminate|].
    destruct (IsEnabled u) eqn:Hen; [|discriminate]. intros _.
    by apply IsEnabled_true. }
  rewrite RefreshToken_result. cbn [req_Token].
  destruct (decide (Refresh tok = "")) as [|_]; [done|].
  rewrite Hopen. destruct (Get_profile_refreshPlain u now) as [-> _].
  cbn [toClaims claims_Username]. rewrite Hname, Huser.
  assert (IsEnabled u = true) as ->
    by (unfold IsEnabled; by apply bool_decide_eq_true).
  cbn [negb]. by rewrite genToken_plain.
Qed.

(** X26: the tokens of [genToken] depend on the user only through id,
    username and display name; their bodies hold the five claims sub, iat,
    nbf, exp and profile and no other, and the claims read back from either
    are those of the user. *)
Theorem X26_genToken_carries_identity_only (s : Auth) (u u' : User) (now : Time) :
  (ID u = ID u' → Username u = Username u' → DisplayName u = DisplayName u' →
   genToken s u now = genToken s u' now)
  ∧ dom (body (accessPlain u now))
    = ({[ "sub"; "iat"; "nbf"; "exp"; "profile" ]} : gset string)
  ∧ dom (body (refreshPlain u now)) = dom (body (accessPlain u now))
  ∧ Get "profile" (accessPlain u now) = Some (toClaims u)
  ∧ Get "profile" (refreshPlain u now) = Some (toClaims u).
Proof.
  split; [|split; [|split; [|split; reflexivity]]].
  - intros Hid Hname Hdisp. rewrite !genToken_plain.
    unfold refreshPlain, accessPlain, toClaims. by rewrite Hid, Hname, Hdisp.
  - unfold accessPlain, SetFooter, SetExpiration, SetNotBefore, SetIssuedAt,
      SetSubject, setClaim, NewToken. cbn [body].
    rewrite !dom_insert_L, dom_empty_L. set_solver.
  - unfold refreshPlain, SetExpiration, setClaim. cbn [body].
    rewrite dom_insert_L.
    unfold accessPlain, SetFooter, SetExpiration, SetNotBefore, SetIssuedAt,
      SetSubject, setClaim, NewToken. cbn [body].
    rewrite !dom_insert_L, dom_empty_L. set_solver.
Qed.

(** X27: [Profile] queries the store once, for the username of the claims;
    it returns the user the store has, whatever the status; an absent user
    is answered with PermissionDenied; any other error of the store is
    returned as it is. *)
Theorem X27_Profile (s : Auth) (ctx : Context) (claims : Claims)
    (Hctx : ClaimsFromContext ctx = Some claims) :
  queries (Profile s ctx) = [QueryUser (claims_Username claims)]
  ∧ (∀ user, result (getUserByUsername (db s) (claims_Username claims)) = Ok user →
             result (Profile s ctx) = Ok user)
  ∧ (QueryRow_user (db s) (claims_Username claims) = RowFail ErrNoRows →
     result (Profile s ctx)
     = Err (rpcstatus_Error PermissionDenied
              "You are not allowed to access this resource or (it may not exist)"))
  ∧ (∀ e, result (getUserByUsername (db s) (claims_Username claims)) = Err e →
          errors_Is_UserNotFound e = false →
          result (Profile s ctx) = Err e).
Proof.
  pose proof (getUser_queries (db s) (claims_Username claims)) as Hq.
  pose proof (getUser_result (db s) (claims_Username claims)) as Hr.
  unfold queries, result, run in *. unfold Profile. rewrite Hctx.
  cbn [deref]. unfold mbind, M_bind at 1, mret, M_ret. cbn beta iota.
  unfold mbind, M_bind, attempt.
  destruct (getUserByUsername (db s) (claims_Username claims) [])
    as [[user|e|msg] log]; simpl in Hq, Hr; subst log; simpl.
  - split; [done|]. split; [by intros ? [= <-]|]. split; [|discriminate].
    intros Hrow. rewrite Hrow in Hr. discriminate Hr.
  - split; [by destruct (errors_Is_UserNotFound e)|]. split; [discriminate|]. split.
    + intros Hrow. rewrite Hrow in Hr. simpl in Hr. injection Hr as ->. done.
    + intros e' [= <-] ->. done.
  - split; [done|]. split; [discriminate|]. split; [|discriminate].
    intros Hrow. rewrite Hrow in Hr. discriminate Hr.
Qed.

End ServiceExtras.

Section LoadStatus.
Context `{Libraries}.

(** X28: how the status column decides the loading of a user row: a name of
    the table gives the user that status; no value at all gives
    [StatusUnSpecified]; a text outside the table makes [getUserByUsername]
    fail with the scan error of the fifth column, and a well-formed [Login]
    for that username returns this very error. *)
Theorem X28_status_column_on_load (s : Auth) (name : string) (c : UserColumns)
    (Hrow : QueryRow_user (db s) name = RowFound c) :
  (∀ text v, col_status c = Status.SrcString text →
     Status.statusValues !! text = Some v →
     ∃ u, result (getUserByUsername (db s) name) = Ok u ∧ Status u = v)
  ∧ (col_status c = Status.SrcNil →
     ∃ u, result (getUserByUsername (db s) name) = Ok u
          ∧ Status u = Status.StatusUnSpecified)
  ∧ (∀ text, col_status c = Status.SrcString text →
     Status.statusValues !! text = None →
     result (getUserByUsername (db s) name)
     = Err (ErrScanArg 4 (ErrNew ("invalid status: " +:+ text)))
     ∧ ∀ in_ now, Validate in_ = None → req_Username in_ = name →
         result (Login s in_ now)
         = Err (ErrScanArg 4 (ErrNew ("invalid status: " +:+ text)))).
Proof.
  split; [|split].
  - intros text v Hc Hl. rewrite getUser_result, Hrow. unfold scanUser.
    rewrite Hc, Scan_text. unfold Status.status in *. rewrite Hl. eauto.
  - intros Hc. rewrite getUser_result, Hrow. unfold scanUser. rewrite Hc.
    cbn [Status.Scan]. eauto.
  - intros text Hc Hl.
    assert (result (getUserByUsername (db s) name)
            = Err (ErrScanArg 4 (ErrNew ("invalid status: " +:+ text)))) as Hres.
    { rewrite getUser_result, Hrow. unfold scanUser.
      rewrite Hc, Scan_text. unfold Status.status in *. by rewrite Hl. }
    split; [exact Hres|]. intros in_ now Hval <-.
    by rewrite Login_result, Hval, Hres.
Qed.

End LoadStatus.

(** ** The properties on the sample data *)

Lemma X4_loaded_status_in_range_witness :
  result (getUserByUsername (db demoService) "dora") = Ok doraUser
  ∧ 0 ≤ Status doraUser ≤ 3.
Proof.
  assert (Hload : result (getUserByUsername (db demoService) "dora") = Ok doraUser)
    by (vm_compute; reflexivity).
  split; [exact Hload|].
  exact (X4_loaded_status_in_range (db demoService) "dora" doraUser Hload).
Defined.

Lemma X6_every_int_decodes_witness :
  Status.UnmarshalJSON Status.StatusEnabled (quoted (pretty 42)) = Ok 42.
Proof.
  apply X6_every_int_decodes. unfold minInt, maxInt. lia.
Defined.

Lemma X7_String_injective_witness :
  Status.StatusEnabled = Status.StatusEnabled.
Proof.
  apply (X7_String_injective Status.StatusEnabled Status.StatusEnabled).
  reflexivity.
Defined.

Lemma X8_claims_context_round_trip_witness :
  ClaimsFromContext
    (WithValue (ContextWithClaims Background (Some (claimsOf "ann")))
       (ForeignKey "request-id") (AnyOther "42"))
  = ClaimsFromContext (ContextWithClaims Background (Some (claimsOf "ann"))).
Proof.
  apply (proj1 (proj2 (X8_claims_context_round_trip
                         (ContextWithClaims Background (Some (claimsOf "ann")))))).
  discriminate.
Defined.

Lemma X9_nil_claims_panic_witness :
  run (CanI demoService (ContextWithClaims Background None) ["x:read"])
  = (Panic "runtime error: invalid memory address or nil pointer dereference", []).
Proof.
  refine (proj1 (proj2 (X9_nil_claims_panic demoService
            (ContextWithClaims Background None) eq_refl)) ["x:read"] _).
  discriminate.
Defined.

Lemma X10_nothing_missing_iff_covered_witness :
  checkMissingPermissions ["x:read"; "x:read"] ["x:write"; "x:read"] = [].
Proof.
  apply X10_nothing_missing_iff_covered. intros p Hp.
  apply elem_of_cons in Hp as [->|Hp]; [by right; left|].
  apply elem_of_cons in Hp as [->|Hp]; [by right; left|].
  by apply elem_of_nil in Hp.
Defined.

Lemma X11_missing_depends_on_set_of_having_witness :
  checkMissingPermissions ["y:read"; "x:read"] ["x:read"; "x:write"; "x:read"]
  = checkMissingPermissions ["y:read"; "x:read"] ["x:read"].
Proof.
  apply X11_missing_depends_on_set_of_having. intros p Hp.
  apply elem_of_cons in Hp as [->|Hp].
  { split; intros Hin; vm_compute in Hin;
      repeat (apply elem_of_cons in Hin as [Hin|Hin]; [discriminate|]);
      by apply elem_of_nil in Hin. }
  apply elem_of_cons in Hp as [->|Hp]; [|by apply elem_of_nil in Hp].
  split; intros _; by left.
Defined.

Lemma X12_missing_shrinks_as_having_grows_witness :
  checkMissingPermissions ["y:read"; "x:write"] ["x:read"; "x:write"]
    `sublist_of` checkMissingPermissions ["y:read"; "x:write"] ["x:read"]
  ∧ checkMissingPermissions ["y:read"; "x:write"] ["x:read"]
    `sublist_of` ["y:read"; "x:write"].
Proof.
  apply X12_missing_shrinks_as_having_grows. intros p Hp.
  apply elem_of_cons in Hp as [->|Hp]; [by left|by apply elem_of_nil in Hp].
Defined.

Lemma X17_CanI_decision_over_tables_witness :
  result (CanI demoService (ContextWithClaims Background (Some (claimsOf "bob")))
            ["x:write"]) = Ok tt
  ↔ ∀ p, p ∈ ["x:write"] →
      ∃ id name display,
        ("bob", name) ∈ user_has_role demoTables
        ∧ (id, name, display) ∈ role demoTables
        ∧ (name, p) ∈ role_has_permission demoTables.
Proof.
  apply (X17_CanI_decision_over_tables demoUsers demoTables demoService
           (ContextWithClaims Background (Some (claimsOf "bob")))
           (claimsOf "bob") ["x:write"]).
  - reflexivity.
  - reflexivity.
  - discriminate.
Defined.

Lemma X18_CanI_outcomes_witness :
  queries (CanI brokenService
             (ContextWithClaims Background (Some (claimsOf "ann"))) ["x:read"])
  = [QueryRoles "ann"].
Proof.
  refine (proj1 (X18_CanI_outcomes brokenService
            (ContextWithClaims Background (Some (claimsOf "ann")))
            (claimsOf "ann") ["x:read"] _ eq_refl)).
  discriminate.
Defined.

Lemma X19_CanI_more_roles_keep_access_witness :
  result (CanI widerService
            (ContextWithClaims Background (Some (claimsOf "ann")))
            ["x:read"; "x:write"]) = Ok tt.
Proof.
  apply (X19_CanI_more_roles_keep_access demoService widerService
           (ContextWithClaims Background (Some (claimsOf "ann")))
           (claimsOf "ann") ["x:read"; "x:write"]
           (rolesQuery demoTables "ann") (rolesQuery widerTables "ann")).
  - discriminate.
  - reflexivity.
  - vm_compute. reflexivity.
  - vm_compute. reflexivity.
  - intros r Hr. vm_compute in Hr. vm_compute. exact Hr.
  - vm_compute. reflexivity.
Defined.

Lemma X15_listRoles_all_or_nothing_witness :
  ∃ e, result (listRolesByUsername brokenPool "ann") = Err e.
Proof.
  refine (proj2 (X15_listRoles_all_or_nothing brokenPool "ann" _ _ eq_refl)
            (ErrDriver "context canceled") eq_refl).
Defined.

Lemma X16_listRoles_first_scan_failure_witness :
  result (listRolesByUsername brokenPool "ann")
  = Err (ErrWrap "failed to scan row: " (ErrDriver "wrong array")).
Proof.
  exact (X16_listRoles_first_scan_failure brokenPool "ann" [roleA]
           (ErrDriver "wrong array") [RoleScanned roleB]
           (Some (ErrDriver "context canceled")) eq_refl).
Defined.

Lemma X28_status_column_on_load_witness :
  result (@Login demoLibraries brokenService
            {| req_Username := "odd"; req_Password := "odd-secret" |} 0)
  = Err (ErrScanArg 4 (ErrNew "invalid status: ARCHIVED")).
Proof.
  refine (proj2 (proj2 (proj2 (@X28_status_column_on_load demoLibraries
            brokenService "odd" _ eq_refl)) "ARCHIVED" eq_refl _)
            {| req_Username := "odd"; req_Password := "odd-secret" |} 0 _ eq_refl).
  - vm_compute. reflexivity.
  - reflexivity.
Defined.

Lemma X20_Validate_witness :
  ∃ msg violations,
    ErrStatus InvalidArgument
      "Credentials are not valid or incomplete. Please check the errors and try again, see details for more information."
      [ {| Field := "password"; Description := "Password must not be empty" |} ]
    = ErrStatus InvalidArgument msg violations
    ∧ Field <$> violations = [] ++ ["password"].
Proof.
  exact (proj2 (X20_Validate {| req_Username := "ann"; req_Password := "" |})
           _ eq_refl).
Defined.

Lemma X21_Login_store_discipline_witness :
  queries (@Login demoLibraries brokenService
             {| req_Username := "nul"; req_Password := "nul-secret" |} 0)
  = [QueryUser "nul"]
  ∧ ∃ msg violations,
      run (@Login demoLibraries brokenService
             {| req_Username := ""; req_Password := "nul-secret" |} 0)
      = (Err (ErrStatus InvalidArgument msg violations), []).
Proof.
  split.
  - apply (proj1 (@X21_Login_store_discipline demoLibraries brokenService
                    {| req_Username := "nul"; req_Password := "nul-secret" |} 0)).
    split; discriminate.
  - apply (proj2 (@X21_Login_store_discipline demoLibraries brokenService
                    {| req_Username := ""; req_Password := "nul-secret" |} 0)).
    by left.
Defined.

Lemma X22_Login_succeeds_iff_witness :
  result (@Login demoLibraries demoService
            {| req_Username := "ann"; req_Password := "ann-secret" |} 5)
  = Ok {| Access := "access-key/ann"; Refresh := "refresh-key/ann" |}.
Proof.
  apply (@X22_Login_succeeds_iff demoLibraries).
  split; [discriminate|]. split; [discriminate|].
  exists annUser. repeat apply conj; vm_compute; reflexivity.
Defined.

Lemma X23_Refresh_rejects_before_store_witness :
  run (@RefreshToken demoLibraries demoService
         {| req_Token := "access-key/dora" |} 0 0)
  = (Err (rpcstatus_Error Unauthenticated tokenMessage), []).
Proof.
  apply (@X23_Refresh_rejects_before_store demoLibraries).
  right; left. vm_compute. reflexivity.
Defined.

Lemma X24_Refresh_succeeds_iff_witness :
  result (@RefreshToken loopLibraries demoService
            {| req_Token := "refresh-key/ann" |} 6 7)
  = Ok {| Access := "access-key/ann"; Refresh := "refresh-key/ann" |}.
Proof.
  apply (@X24_Refresh_succeeds_iff loopLibraries).
  split; [discriminate|].
  exists (@refreshPlain demoLibraries annUser 5), (toClaims annUser), annUser.
  repeat apply conj; vm_compute; reflexivity.
Defined.

Lemma X25_login_then_refresh_witness :
  result (@RefreshToken loopLibraries demoService
            {| req_Token := "refresh-key/ann" |} 6 7)
  = Ok {| Access := @V4Encrypt loopLibraries
                      (@accessPlain loopLibraries annUser 7) "access-key";
          Refresh := @V4Encrypt loopLibraries
                       (@refreshPlain loopLibraries annUser 7) "refresh-key" |}.
Proof.
  apply (@X25_login_then_refresh loopLibraries demoService
           {| req_Username := "ann"; req_Password := "ann-secret" |} 5 6 7
           {| Access := "access-key/ann"; Refresh := "refresh-key/ann" |} annUser).
  - vm_compute. reflexivity.
  - vm_compute. reflexivity.
  - reflexivity.
  - discriminate.
  - vm_compute. reflexivity.
Defined.

Lemma X26_genToken_carries_identity_only_witness :
  @genToken demoLibraries demoService annUser 5
  = @genToken demoLibraries demoService
      {| ID := "id-ann"; Username := "ann"; DisplayName := "ann";
         Status := Status.StatusTerminated; CreatedAt := 9;
         hashedPassword := "other"; createdBy := "x"; updatedBy := "y";
         updatedAt := 9 |} 5.
Proof.
  apply (proj1 (@X26_genToken_carries_identity_only demoLibraries demoService
                  annUser _ 5)); reflexivity.
Defined.

Lemma X27_Profile_witness :
  result (Profile demoService
            (ContextWithClaims Background (Some (claimsOf "dora"))))
  = Ok doraUser.
Proof.
  refine (proj1 (proj2 (X27_Profile demoService
            (ContextWithClaims Background (Some (claimsOf "dora")))
            (claimsOf "dora") eq_refl)) doraUser _).
  vm_compute. reflexivity.
Defined.
